(** * ReflectionAlbedo: table lookups for the Cook-Torrance microfacet BRDF

    A shallow embedding of the class [moonray::shading::ReflectionAlbedo]:
    the accessors [E] (directional albedo) and [oneMinusAvg] (one minus the
    average albedo), the private index helpers [index] and [rIndex], and the
    four constant tables.

    Numbers.  A C++ [float] is embedded as a rational of [Q]; a table
    literal [0.99780f] is the rational [0.99780].  The operations of the
    source that are exact on binary32 values are left exact: the products
    with [COMP - 1 = 32], a power of two, [floor], [ceil], and the subtraction
    in [rIndex] of the integral part.  The two sums of [index] and the
    conversions of a [size_t] to [float] are not exact in the source, and
    are rounded here as binary32 rounds them, to the nearest value with ties
    to even ([round_binary32]).  The interpolation [lerp] is not among the
    sources and keeps the exact value of its formula.  A [size_t] is an
    integer of [Z] kept in [0, 2^64), with the wrap-around of [+] and [*]
    written out.

    Undefined behaviour.  Two operations of the source have no defined result
    for some arguments: the conversion [static_cast<size_t>] of a [float]
    whose truncation is not a [size_t], and a read of a table past its end.
    Both are embedded in the error monad [option]: [None] says that the source
    has no defined result.

    The module [Labels] holds the light path labels of closure.cc. *)

From Stdlib Require Import ZArith QArith Qround Qminmax Qpower Qreduction.
From Stdlib Require Import List Bool Lia Lqa.
From Stdlib Require String.
Import ListNotations.

Set Implicit Arguments.

(** * Labels: the light path labels of closure.cc *)

Module Labels.

Import Stdlib.Strings.String.
Local Open Scope string_scope.

(** Modelled from the spec: [ustring] is declared in oslconfig.h, which is
    not among the sources.  The spec calls the labels opaque identifiers: a
    [ustring] is an interned string, equal to another exactly when both hold
    the same characters, and [ustring(NULL)] holds no characters at all,
    which [None] stands for. *)
Definition ustring : Type := option string.

Definition NONE : ustring := None.
Definition CAMERA : ustring := Some "C".
Definition LIGHT : ustring := Some "L".
Definition BACKGROUND : ustring := Some "B".
Definition VOLUME : ustring := Some "V".
Definition OBJECT : ustring := Some "O".
Definition TRANSMIT : ustring := Some "T".
Definition REFLECT : ustring := Some "R".
Definition DIFFUSE : ustring := Some "D".
Definition GLOSSY : ustring := Some "G".
Definition SINGULAR : ustring := Some "S".
Definition STRAIGHT : ustring := Some "s".
Definition STOP : ustring := Some "__stop__".

(** The thirteen labels, in the order of their definitions. *)
Definition all : list ustring :=
  [NONE; CAMERA; LIGHT; BACKGROUND; VOLUME; OBJECT; TRANSMIT; REFLECT;
   DIFFUSE; GLOSSY; SINGULAR; STRAIGHT; STOP].

(** The labels that are one character long. *)
Definition single_character (l : ustring) : Prop :=
  exists c, l = Some (String c EmptyString).

End Labels.

Module ReflectionAlbedo.

Open Scope Q_scope.

(** ** The error monad *)

Definition bind {A B : Type} (m : option A) (k : A -> option B) : option B :=
  match m with
  | Some a => k a
  | None => None
  end.

Notation "x <- m ;; k" := (bind m (fun x => k))
  (at level 61, m at next level, right associativity).

(** ** Machine types *)

Definition float : Type := Q.

(** One more than the largest [size_t]. *)
Definition size_t_modulus : Z := 2 ^ 64.

(** The result of an arithmetic operation on [size_t]. *)
Definition wrap (z : Z) : Z := (z mod size_t_modulus)%Z.

(** Truncation toward zero, the rounding of a float-to-integer conversion. *)
Definition truncate (x : float) : Z := Z.quot (Qnum x) (Zpos (Qden x)).

(** [static_cast<size_t>(x)]: the truncated value when it is a [size_t],
    undefined otherwise. *)
Definition static_cast_size_t (x : float) : option Z :=
  let t := truncate x in
  if ((0 <=? t) && (t <? size_t_modulus))%Z then Some t else None.

(** *** Rounding to binary32 *)

Definition pow2 (k : Z) : Q := 2 ^ k.

(** The integer nearest to [x], the even one of the two when [x] lies half
    way. *)
Definition rne (x : Q) : Z :=
  let f := Qfloor x in
  match Qcompare (x - inject_Z f) (1 # 2) with
  | Lt => f
  | Eq => if Z.even f then f else (f + 1)%Z
  | Gt => (f + 1)%Z
  end.

(** For a positive [m], the exponent [e] with [2^e <= m < 2^(e+1)]. *)
Definition ilog2 (m : Q) : Z :=
  let t := (Z.log2 (Qnum m) - Z.log2 (Zpos (Qden m)))%Z in
  if Qle_bool (pow2 t) m then t else (t - 1)%Z.

(** The exponent of the unit in the last place of a positive [m]: 24
    significant bits, and [2^-149] for the subnormal values. *)
Definition ulp_exponent (m : Q) : Z := Z.max (ilog2 m - 23) (-149).

Definition round_magnitude (m : Q) : Q :=
  inject_Z (rne (m / pow2 (ulp_exponent m))) * pow2 (ulp_exponent m).

(** The binary32 value nearest to [x], ties to even, in lowest terms.  A
    magnitude beyond the largest binary32 value is left finite where the
    source gives an infinity: the results are only ever converted to
    [size_t], which is undefined for the one as for the other. *)
Definition round_binary32 (x : Q) : float :=
  Qred (match Qcompare x 0 with
        | Eq => 0
        | Gt => round_magnitude x
        | Lt => - round_magnitude (- x)
        end).

(** [a + b] on [float]. *)
Definition fadd (a b : float) : float := round_binary32 (a + b).

(** The implicit conversion of a [size_t] operand to [float]: exact up to
    [2^24], and to the nearest binary32 value beyond, as the conversion of
    IEEE hardware. *)
Definition to_float (z : Z) : float := round_binary32 (inject_Z z).

(** [floor] and [ceil] of the C library, with a [float] result. *)
Definition floor (x : float) : float := inject_Z (Qfloor x).
Definition ceil (x : float) : float := inject_Z (Qceiling x).

(** Modelled from the spec: [ispc::MicrofacetDistribution] is declared in
    BsdfComponent_ispc_stubs.h, which is not among the sources.  The spec
    names two supported variants, Beckmann and GGX; an enumeration object can
    also hold any other value of its underlying type, which is what
    [MICROFACET_DISTRIBUTION_other] stands for. *)
Inductive MicrofacetDistribution : Type :=
  | MICROFACET_DISTRIBUTION_BECKMANN
  | MICROFACET_DISTRIBUTION_GGX
  | MICROFACET_DISTRIBUTION_other (raw : Z).

(** Modelled from the spec: [scene_rdl2::math::lerp] is declared in
    MathUtil.h, which is not among the sources.  The spec says that the two
    entries are linearly interpolated with the weight: weight [0] gives the
    first entry and weight [1] the second. *)
Definition lerp (v0 v1 t : float) : float := (1 - t) * v0 + t * v1.

(** Modelled from the spec: [scene_rdl2::math::min], from the same header,
    is the smaller of its two [size_t] arguments. *)
Definition min (a b : Z) : Z := Z.min a b.

(** ** Constants and tables *)

Definition COMP : Z := 33.

(** [mBeckmannE[COMP*COMP]]: directional albedo, Beckmann with Smith, no fresnel;
    one source row per roughness sample, one column per cosTheta sample. *)
Definition mBeckmannE : list float :=
  [ 0.00000; 1.00000; 1.00000; 1.00000; 1.00000; 0.99780; 1.00000; 1.00000; 1.00000; 0.99920; 0.99644; 1.00000; 1.00000; 1.00000; 1.00000; 1.00000; 1.00000; 1.00000; 0.99789; 1.00000; 0.99721; 0.99592; 1.00000; 1.00000; 1.00000; 1.00000; 1.00000; 1.00000; 1.00000; 1.00000; 1.00000; 1.00000; 1.00000;
    0.00000; 1.00000; 1.00000; 1.00000; 1.00000; 1.00000; 1.00000; 1.00000; 1.00000; 1.00000; 1.00000; 1.00000; 1.00000; 1.00000; 1.00000; 1.00000; 1.00000; 1.00000; 1.00000; 1.00000; 1.00000; 1.00000; 1.00000; 1.00000; 1.00000; 1.00000; 1.00000; 1.00000; 1.00000; 1.00000; 1.00000; 1.00000; 1.00000;
    0.00000; 1.00000; 1.00000; 1.00000; 1.00000; 1.00000; 1.00000; 1.00000; 1.00000; 1.00000; 1.00000; 1.00000; 1.00000; 1.00000; 1.00000; 1.00000; 1.00000; 1.00000; 1.00000; 1.00000; 1.00000; 1.00000; 1.00000; 1.00000; 1.00000; 1.00000; 1.00000; 1.00000; 1.00000; 1.00000; 1.00000; 1.00000; 1.00000;
    0.00000; 1.00000; 1.00000; 1.00000; 1.00000; 1.00000; 1.00000; 1.00000; 1.00000; 1.00000; 1.00000; 1.00000; 1.00000; 1.00000; 1.00000; 1.00000; 1.00000; 1.00000; 1.00000; 1.00000; 1.00000; 1.00000; 1.00000; 1.00000; 1.00000; 1.00000; 1.00000; 1.00000; 1.00000; 1.00000; 1.00000; 1.00000; 1.00000;
    0.00000; 0.95384; 1.00000; 1.00000; 1.00000; 1.00000; 1.00000; 1.00000; 1.00000; 1.00000; 1.00000; 1.00000; 1.00000; 1.00000; 1.00000; 1.00000; 1.00000; 1.00000; 1.00000; 1.00000; 1.00000; 1.00000; 1.00000; 1.00000; 1.00000; 1.00000; 1.00000; 1.00000; 1.00000; 1.00000; 1.00000; 1.00000; 1.00000;
    0.00000; 0.92372; 0.97904; 1.00000; 1.00000; 1.00000; 1.00000; 1.00000; 1.00000; 1.00000; 1.00000; 1.00000; 1.00000; 1.00000; 1.00000; 1.00000; 1.00000; 1.00000; 1.00000; 1.00000; 1.00000; 1.00000; 1.00000; 1.00000; 1.00000; 1.00000; 1.00000; 1.00000; 1.00000; 1.00000; 1.00000; 1.00000; 1.00000;
    0.00000; 0.91041; 0.94333; 0.98162; 0.99952; 1.00000; 1.00000; 1.00000; 1.00000; 1.00000; 1.00000; 1.00000; 1.00000; 1.00000; 1.00000; 1.00000; 1.00000; 1.00000; 1.00000; 1.00000; 1.00000; 1.00000; 1.00000; 1.00000; 1.00000; 1.00000; 1.00000; 1.00000; 1.00000; 1.00000; 1.00000; 1.00000; 1.00000;
    0.00000; 0.91129; 0.92556; 0.95107; 0.97892; 0.99694; 1.00000; 1.00000; 1.00000; 1.00000; 1.00000; 1.00000; 1.00000; 1.00000; 1.00000; 1.00000; 1.00000; 1.00000; 1.00000; 1.00000; 1.00000; 1.00000; 1.00000; 1.00000; 1.00000; 1.00000; 1.00000; 1.00000; 1.00000; 1.00000; 1.00000; 1.00000; 1.00000;
    0.00000; 0.91444; 0.91255; 0.93227; 0.95312; 0.97481; 0.98993; 0.99849; 1.00000; 1.00000; 1.00000; 1.00000; 1.00000; 1.00000; 1.00000; 1.00000; 1.00000; 1.00000; 1.00000; 1.00000; 1.00000; 1.00000; 1.00000; 1.00000; 1.00000; 1.00000; 1.00000; 1.00000; 1.00000; 1.00000; 1.00000; 1.00000; 1.00000;
    0.00000; 0.92211; 0.90971; 0.92234; 0.93333; 0.95325; 0.96955; 0.98484; 0.99377; 0.99906; 1.00000; 1.00000; 1.00000; 1.00000; 1.00000; 1.00000; 1.00000; 1.00000; 1.00000; 1.00000; 1.00000; 1.00000; 1.00000; 1.00000; 1.00000; 1.00000; 1.00000; 1.00000; 1.00000; 1.00000; 1.00000; 1.00000; 1.00000;
    0.00000; 0.92105; 0.90951; 0.90438; 0.91948; 0.93266; 0.95063; 0.96493; 0.97624; 0.98773; 0.99243; 0.99771; 1.00000; 1.00000; 1.00000; 1.00000; 1.00000; 1.00000; 1.00000; 1.00000; 1.00000; 1.00000; 1.00000; 1.00000; 1.00000; 1.00000; 1.00000; 1.00000; 1.00000; 1.00000; 1.00000; 1.00000; 1.00000;
    0.00000; 0.93319; 0.90727; 0.90564; 0.91429; 0.92192; 0.93309; 0.94482; 0.95808; 0.96911; 0.98118; 0.98649; 0.99368; 0.99612; 0.99970; 1.00000; 1.00000; 1.00000; 1.00000; 1.00000; 1.00000; 1.00000; 1.00000; 1.00000; 1.00000; 1.00000; 1.00000; 1.00000; 1.00000; 1.00000; 1.00000; 1.00000; 1.00000;
    0.00000; 0.93668; 0.92183; 0.90433; 0.90694; 0.91307; 0.92097; 0.92911; 0.93944; 0.94866; 0.96369; 0.97152; 0.97981; 0.98739; 0.99202; 0.99612; 0.99842; 1.00000; 1.00000; 1.00000; 1.00000; 1.00000; 1.00000; 1.00000; 1.00000; 1.00000; 1.00000; 1.00000; 1.00000; 1.00000; 1.00000; 1.00000; 1.00000;
    0.00000; 0.94068; 0.92066; 0.90915; 0.90752; 0.90666; 0.91034; 0.91983; 0.92714; 0.93627; 0.94461; 0.95583; 0.96388; 0.97285; 0.97897; 0.98508; 0.99061; 0.99297; 0.99718; 0.99822; 0.99968; 1.00000; 1.00000; 1.00000; 1.00000; 1.00000; 1.00000; 1.00000; 1.00000; 1.00000; 1.00000; 0.99989; 1.00000;
    0.00000; 0.93685; 0.92307; 0.91332; 0.90610; 0.90211; 0.90634; 0.90993; 0.91704; 0.92289; 0.93010; 0.93981; 0.94592; 0.95523; 0.96451; 0.97098; 0.97817; 0.98269; 0.98884; 0.99313; 0.99535; 0.99652; 0.99917; 1.00000; 1.00000; 1.00000; 1.00000; 1.00000; 1.00000; 1.00000; 0.99977; 0.99991; 1.00000;
    0.00000; 0.94354; 0.93049; 0.91650; 0.90942; 0.90444; 0.90122; 0.90528; 0.90767; 0.91449; 0.91912; 0.92378; 0.93187; 0.93836; 0.95003; 0.95643; 0.96406; 0.97037; 0.97697; 0.98229; 0.98645; 0.98919; 0.99455; 0.99548; 0.99795; 0.99904; 0.99946; 1.00000; 1.00000; 1.00000; 0.99983; 0.99983; 1.00000;
    0.00000; 0.92864; 0.92993; 0.91421; 0.90439; 0.90278; 0.89667; 0.89745; 0.90254; 0.90401; 0.91168; 0.91447; 0.91952; 0.92479; 0.93186; 0.93970; 0.94794; 0.95461; 0.96055; 0.96701; 0.97568; 0.98037; 0.98558; 0.98906; 0.99204; 0.99525; 0.99706; 0.99882; 0.99896; 0.99982; 0.99949; 1.00000; 1.00000;
    0.00000; 0.94134; 0.93047; 0.92460; 0.91805; 0.90357; 0.89555; 0.89539; 0.90060; 0.89829; 0.89897; 0.90588; 0.90864; 0.91491; 0.91867; 0.92284; 0.92984; 0.93915; 0.94173; 0.95283; 0.96038; 0.96478; 0.97284; 0.97816; 0.98285; 0.98730; 0.99203; 0.99438; 0.99703; 0.99840; 0.99906; 1.00000; 1.00000;
    0.00000; 0.93970; 0.93186; 0.91736; 0.91642; 0.90312; 0.90217; 0.89881; 0.88999; 0.89109; 0.89861; 0.89683; 0.90024; 0.90476; 0.90548; 0.90946; 0.91602; 0.92163; 0.92532; 0.93427; 0.94093; 0.95076; 0.95650; 0.96516; 0.96969; 0.97509; 0.98103; 0.98638; 0.99034; 0.99415; 0.99703; 0.99893; 0.99999;
    0.00000; 0.93786; 0.93542; 0.92989; 0.91328; 0.90596; 0.90439; 0.89262; 0.89356; 0.89447; 0.88988; 0.89292; 0.89436; 0.88992; 0.89722; 0.90024; 0.90081; 0.90797; 0.91038; 0.91756; 0.92515; 0.93182; 0.94015; 0.94533; 0.95353; 0.96023; 0.96793; 0.97464; 0.98132; 0.98622; 0.99183; 0.99613; 0.99949;
    0.00000; 0.94443; 0.93077; 0.92609; 0.91117; 0.90976; 0.90006; 0.90093; 0.88895; 0.88555; 0.88430; 0.88049; 0.88549; 0.88704; 0.88626; 0.88682; 0.89273; 0.89344; 0.89761; 0.90479; 0.90890; 0.91386; 0.91942; 0.92718; 0.93375; 0.94233; 0.94941; 0.95794; 0.96411; 0.97350; 0.98190; 0.98942; 0.99695;
    0.00000; 0.93508; 0.93540; 0.92171; 0.91698; 0.90640; 0.89434; 0.89166; 0.89003; 0.88416; 0.88173; 0.87728; 0.88032; 0.87905; 0.88074; 0.88275; 0.88495; 0.88196; 0.88492; 0.88593; 0.88965; 0.89366; 0.90142; 0.90646; 0.91413; 0.92338; 0.92900; 0.93720; 0.94604; 0.95660; 0.96626; 0.97628; 0.98898;
    0.00000; 0.94417; 0.93808; 0.92522; 0.91873; 0.91110; 0.89636; 0.89362; 0.89040; 0.88969; 0.88624; 0.87711; 0.87650; 0.87487; 0.87396; 0.87030; 0.86887; 0.87312; 0.87215; 0.87263; 0.87421; 0.87836; 0.88164; 0.88744; 0.89232; 0.89919; 0.90606; 0.91468; 0.92376; 0.93345; 0.94327; 0.95530; 0.97056;
    0.00000; 0.93061; 0.93999; 0.92784; 0.91504; 0.90673; 0.89685; 0.89212; 0.88725; 0.87726; 0.87727; 0.86730; 0.86857; 0.86801; 0.86327; 0.86186; 0.86301; 0.85704; 0.85903; 0.85987; 0.86322; 0.86245; 0.86653; 0.86854; 0.87137; 0.87570; 0.88304; 0.88836; 0.89629; 0.90842; 0.91498; 0.92872; 0.94125;
    0.00000; 0.94020; 0.92956; 0.92790; 0.91331; 0.90878; 0.89462; 0.89373; 0.88645; 0.87900; 0.88045; 0.86844; 0.86406; 0.86277; 0.85831; 0.85669; 0.85060; 0.84845; 0.84685; 0.84478; 0.84610; 0.84417; 0.84707; 0.84441; 0.84812; 0.85063; 0.85570; 0.86002; 0.86959; 0.87359; 0.87973; 0.89003; 0.90187;
    0.00000; 0.93565; 0.92840; 0.92265; 0.91277; 0.90805; 0.90266; 0.89373; 0.88649; 0.88348; 0.86852; 0.86962; 0.86407; 0.85354; 0.85201; 0.84430; 0.84254; 0.84003; 0.83880; 0.83396; 0.83359; 0.82894; 0.82758; 0.83039; 0.82446; 0.82401; 0.82796; 0.83160; 0.83134; 0.83877; 0.84109; 0.84834; 0.85321;
    0.00000; 0.93583; 0.92829; 0.92043; 0.91376; 0.90027; 0.90277; 0.88562; 0.87706; 0.87212; 0.87339; 0.86195; 0.85319; 0.84522; 0.84761; 0.83767; 0.83249; 0.83167; 0.82650; 0.82197; 0.81516; 0.80997; 0.81149; 0.80556; 0.80448; 0.80116; 0.79751; 0.79893; 0.79723; 0.79686; 0.79696; 0.79587; 0.80117;
    0.00000; 0.93485; 0.92132; 0.91838; 0.91080; 0.90168; 0.89926; 0.88129; 0.88158; 0.87115; 0.86300; 0.85717; 0.84708; 0.84031; 0.83737; 0.83160; 0.82348; 0.81770; 0.81402; 0.80412; 0.80176; 0.79349; 0.79124; 0.78569; 0.77854; 0.77212; 0.76819; 0.75935; 0.75692; 0.75453; 0.74926; 0.74598; 0.74344;
    0.00000; 0.92745; 0.92349; 0.91308; 0.90742; 0.90013; 0.88996; 0.88032; 0.87345; 0.86447; 0.85764; 0.85116; 0.84721; 0.83343; 0.82514; 0.81702; 0.81552; 0.80746; 0.79830; 0.78783; 0.77908; 0.77524; 0.76946; 0.75850; 0.75182; 0.74300; 0.73469; 0.72574; 0.71566; 0.70887; 0.69941; 0.69119; 0.68411;
    0.00000; 0.92318; 0.91646; 0.91232; 0.89345; 0.90016; 0.89156; 0.87970; 0.86990; 0.86053; 0.85274; 0.84124; 0.83532; 0.81901; 0.81431; 0.80664; 0.80004; 0.78883; 0.78104; 0.76692; 0.76395; 0.75487; 0.74615; 0.73551; 0.72453; 0.71371; 0.69621; 0.68780; 0.67518; 0.65975; 0.64748; 0.63431; 0.62765;
    0.00000; 0.91507; 0.91887; 0.90499; 0.90142; 0.88454; 0.88050; 0.87180; 0.86054; 0.84918; 0.84150; 0.83514; 0.82115; 0.81438; 0.80240; 0.79440; 0.78172; 0.77451; 0.76345; 0.75091; 0.74144; 0.73153; 0.71656; 0.70717; 0.69353; 0.67631; 0.65776; 0.64283; 0.63075; 0.61418; 0.59615; 0.58340; 0.57106;
    0.00000; 0.90244; 0.89541; 0.89880; 0.88588; 0.87825; 0.87301; 0.86399; 0.85419; 0.84005; 0.82768; 0.82092; 0.80912; 0.79819; 0.78739; 0.77739; 0.76942; 0.75860; 0.74301; 0.73097; 0.71739; 0.70185; 0.68879; 0.67060; 0.66043; 0.64048; 0.62229; 0.60280; 0.58766; 0.56803; 0.54814; 0.53070; 0.51701;
    0.00000; 0.90428; 0.89554; 0.89357; 0.88006; 0.87192; 0.85875; 0.85599; 0.83462; 0.83299; 0.81917; 0.80572; 0.79145; 0.78616; 0.77224; 0.75349; 0.74356; 0.73141; 0.71580; 0.70483; 0.69308; 0.67259; 0.65518; 0.63796; 0.62117; 0.60444; 0.58483; 0.56250; 0.54098; 0.51956; 0.50107; 0.48495; 0.46446 ].

(** [mGGXE[COMP*COMP]]: directional albedo for GGX, same layout. *)
Definition mGGXE : list float :=
  [ 0.00000; 1.00000; 1.00000; 1.00000; 1.00000; 1.00000; 1.00000; 1.00000; 1.00000; 1.00000; 1.00000; 1.00000; 1.00000; 1.00000; 1.00000; 1.00000; 1.00000; 1.00000; 1.00000; 1.00000; 1.00000; 1.00000; 1.00000; 1.00000; 1.00000; 1.00000; 1.00000; 1.00000; 1.00000; 1.00000; 1.00000; 1.00000; 1.00000;
    0.00000; 1.00000; 1.00000; 1.00000; 1.00000; 1.00000; 1.00000; 1.00000; 1.00000; 1.00000; 1.00000; 1.00000; 1.00000; 1.00000; 1.00000; 1.00000; 1.00000; 1.00000; 1.00000; 1.00000; 1.00000; 0.99973; 1.00000; 1.00000; 1.00000; 1.00000; 1.00000; 1.00000; 1.00000; 1.00000; 1.00000; 1.00000; 1.00000;
    0.00000; 0.98761; 0.99844; 1.00000; 1.00000; 1.00000; 1.00000; 1.00000; 1.00000; 1.00000; 1.00000; 1.00000; 1.00000; 1.00000; 1.00000; 1.00000; 1.00000; 1.00000; 1.00000; 1.00000; 1.00000; 1.00000; 1.00000; 1.00000; 1.00000; 1.00000; 1.00000; 1.00000; 1.00000; 1.00000; 1.00000; 1.00000; 1.00000;
    0.00000; 0.94614; 0.98345; 0.99383; 0.99774; 0.99862; 1.00000; 1.00000; 1.00000; 1.00000; 1.00000; 1.00000; 1.00000; 1.00000; 1.00000; 1.00000; 1.00000; 1.00000; 1.00000; 1.00000; 1.00000; 1.00000; 1.00000; 1.00000; 1.00000; 1.00000; 1.00000; 1.00000; 1.00000; 1.00000; 1.00000; 1.00000; 1.00000;
    0.00000; 0.88296; 0.95154; 0.97741; 0.98698; 0.99329; 0.99560; 0.99787; 0.99856; 0.99907; 0.99912; 0.99983; 0.99985; 1.00000; 1.00000; 1.00000; 1.00000; 1.00000; 1.00000; 1.00000; 1.00000; 1.00000; 1.00000; 1.00000; 1.00000; 1.00000; 0.99998; 1.00000; 1.00000; 0.99994; 0.99995; 1.00000; 1.00000;
    0.00000; 0.84597; 0.91149; 0.94714; 0.96925; 0.97859; 0.98610; 0.98971; 0.99274; 0.99481; 0.99585; 0.99671; 0.99732; 0.99842; 0.99883; 0.99942; 0.99962; 1.00000; 0.99968; 0.99981; 0.99973; 0.99970; 0.99984; 1.00000; 0.99986; 1.00000; 0.99993; 1.00000; 1.00000; 0.99991; 0.99991; 1.00000; 1.00000;
    0.00000; 0.82443; 0.87043; 0.91170; 0.94271; 0.95931; 0.97118; 0.97902; 0.98358; 0.98730; 0.98961; 0.99244; 0.99369; 0.99455; 0.99565; 0.99692; 0.99741; 0.99859; 0.99847; 0.99842; 0.99846; 0.99944; 0.99950; 0.99914; 0.99989; 0.99956; 0.99948; 0.99963; 0.99980; 0.99985; 0.99987; 0.99995; 1.00000;
    0.00000; 0.81909; 0.84686; 0.87943; 0.91015; 0.93712; 0.94963; 0.96091; 0.97019; 0.97587; 0.97949; 0.98371; 0.98665; 0.98780; 0.99133; 0.99099; 0.99312; 0.99411; 0.99548; 0.99646; 0.99642; 0.99743; 0.99795; 0.99853; 0.99851; 0.99864; 0.99908; 0.99935; 0.99960; 0.99970; 0.99966; 0.99979; 1.00000;
    0.00000; 0.81940; 0.83133; 0.85457; 0.88055; 0.90547; 0.92506; 0.94044; 0.95087; 0.96057; 0.96824; 0.97366; 0.97621; 0.98011; 0.98389; 0.98515; 0.98709; 0.98951; 0.98994; 0.99214; 0.99377; 0.99446; 0.99472; 0.99582; 0.99662; 0.99759; 0.99793; 0.99797; 0.99862; 0.99911; 0.99936; 0.99971; 0.99999;
    0.00000; 0.81852; 0.82207; 0.84101; 0.85853; 0.88006; 0.89833; 0.91658; 0.93062; 0.94162; 0.95122; 0.95779; 0.96298; 0.96910; 0.97237; 0.97640; 0.97846; 0.98202; 0.98347; 0.98601; 0.98847; 0.98945; 0.99104; 0.99123; 0.99235; 0.99427; 0.99492; 0.99623; 0.99635; 0.99717; 0.99845; 0.99927; 0.99987;
    0.00000; 0.81056; 0.81921; 0.82164; 0.83990; 0.85764; 0.87696; 0.89427; 0.90621; 0.92080; 0.92926; 0.93960; 0.94700; 0.95468; 0.95994; 0.96421; 0.96772; 0.97182; 0.97591; 0.97717; 0.98062; 0.98194; 0.98596; 0.98543; 0.98798; 0.98955; 0.98995; 0.99142; 0.99316; 0.99433; 0.99572; 0.99638; 0.99888;
    0.00000; 0.81708; 0.80955; 0.82100; 0.83394; 0.84099; 0.85746; 0.87065; 0.88423; 0.89606; 0.91007; 0.91762; 0.92957; 0.93552; 0.94409; 0.95064; 0.95448; 0.95949; 0.96415; 0.96644; 0.97060; 0.97493; 0.97686; 0.98006; 0.97990; 0.98337; 0.98545; 0.98561; 0.98822; 0.98873; 0.99055; 0.99229; 0.99330;
    0.00000; 0.81980; 0.81689; 0.81155; 0.81990; 0.82872; 0.84109; 0.85469; 0.86425; 0.87514; 0.89072; 0.89771; 0.90658; 0.91800; 0.92481; 0.93194; 0.93736; 0.94514; 0.94726; 0.95272; 0.95793; 0.96077; 0.96522; 0.96849; 0.97014; 0.97460; 0.97418; 0.97755; 0.97983; 0.98151; 0.98301; 0.98415; 0.98555;
    0.00000; 0.81977; 0.81467; 0.80953; 0.81807; 0.81888; 0.82653; 0.83930; 0.84579; 0.85937; 0.86825; 0.87985; 0.88718; 0.89825; 0.90482; 0.91187; 0.91933; 0.92432; 0.93264; 0.93670; 0.94186; 0.94845; 0.95070; 0.95438; 0.95833; 0.96062; 0.96456; 0.96594; 0.96792; 0.96998; 0.97067; 0.97336; 0.97642;
    0.00000; 0.81589; 0.81562; 0.81469; 0.81091; 0.81523; 0.81912; 0.82740; 0.83571; 0.84018; 0.84979; 0.86101; 0.86549; 0.87400; 0.88495; 0.89155; 0.89880; 0.90404; 0.91182; 0.91991; 0.92380; 0.92771; 0.93334; 0.93759; 0.94271; 0.94448; 0.94692; 0.95112; 0.95267; 0.95611; 0.95690; 0.95981; 0.96251;
    0.00000; 0.80940; 0.81600; 0.80984; 0.81076; 0.81157; 0.80872; 0.81690; 0.82149; 0.82658; 0.83418; 0.84114; 0.84700; 0.85501; 0.86712; 0.87225; 0.87875; 0.88429; 0.89045; 0.89667; 0.90018; 0.90386; 0.91380; 0.91519; 0.92033; 0.92348; 0.92717; 0.93144; 0.93494; 0.93678; 0.93970; 0.94271; 0.94510;
    0.00000; 0.79618; 0.80937; 0.80415; 0.79721; 0.80166; 0.79920; 0.80071; 0.81039; 0.80863; 0.82129; 0.82455; 0.83292; 0.83717; 0.84267; 0.84905; 0.85740; 0.86205; 0.86603; 0.87028; 0.88032; 0.88291; 0.88816; 0.89247; 0.89554; 0.90054; 0.90267; 0.90923; 0.91183; 0.91480; 0.91784; 0.92144; 0.92473;
    0.00000; 0.80315; 0.80604; 0.80839; 0.80267; 0.79861; 0.79089; 0.79528; 0.79913; 0.80045; 0.80207; 0.80929; 0.81108; 0.81849; 0.82287; 0.82485; 0.83176; 0.83890; 0.83847; 0.84599; 0.85266; 0.85466; 0.86113; 0.86599; 0.86901; 0.87355; 0.87945; 0.88219; 0.88649; 0.88850; 0.89240; 0.89830; 0.90000;
    0.00000; 0.80230; 0.79895; 0.79135; 0.79422; 0.78700; 0.79023; 0.79063; 0.78080; 0.78562; 0.79283; 0.79040; 0.79416; 0.79855; 0.79707; 0.80179; 0.80706; 0.80915; 0.81104; 0.81649; 0.82002; 0.82850; 0.83133; 0.83779; 0.84002; 0.84317; 0.84668; 0.85204; 0.85574; 0.85983; 0.86406; 0.86806; 0.87235;
    0.00000; 0.79026; 0.79314; 0.79421; 0.78381; 0.77967; 0.78322; 0.77571; 0.77575; 0.77544; 0.77409; 0.77701; 0.77621; 0.77064; 0.77857; 0.77911; 0.77844; 0.78388; 0.78345; 0.78787; 0.79328; 0.79704; 0.80288; 0.80281; 0.80888; 0.81075; 0.81566; 0.82008; 0.82339; 0.82698; 0.83140; 0.83464; 0.84101;
    0.00000; 0.79456; 0.77825; 0.78117; 0.76967; 0.77222; 0.76681; 0.76810; 0.75915; 0.75655; 0.75593; 0.75082; 0.75475; 0.75334; 0.75260; 0.75119; 0.75658; 0.75495; 0.75839; 0.76323; 0.76352; 0.76476; 0.76800; 0.77093; 0.77293; 0.77788; 0.78104; 0.78445; 0.78457; 0.79135; 0.79406; 0.79693; 0.80436;
    0.00000; 0.77637; 0.78047; 0.76689; 0.76454; 0.75667; 0.74993; 0.74898; 0.74611; 0.74137; 0.73801; 0.73129; 0.73211; 0.73118; 0.73116; 0.73060; 0.73121; 0.72626; 0.72914; 0.72842; 0.72898; 0.73155; 0.73517; 0.73574; 0.73872; 0.74250; 0.74372; 0.74711; 0.74888; 0.75233; 0.75765; 0.76122; 0.76365;
    0.00000; 0.76913; 0.76589; 0.75467; 0.75029; 0.74578; 0.73398; 0.73108; 0.72921; 0.72843; 0.72415; 0.71549; 0.71225; 0.70742; 0.70646; 0.70149; 0.69833; 0.69938; 0.69923; 0.69750; 0.69774; 0.69767; 0.69843; 0.70156; 0.70247; 0.70421; 0.70648; 0.70774; 0.71180; 0.71292; 0.71446; 0.71795; 0.72179;
    0.00000; 0.74800; 0.75308; 0.74227; 0.73256; 0.72815; 0.71876; 0.71196; 0.70905; 0.69855; 0.69791; 0.68587; 0.68442; 0.68213; 0.67788; 0.67384; 0.67382; 0.66757; 0.66716; 0.66585; 0.66758; 0.66532; 0.66780; 0.66658; 0.66625; 0.66679; 0.66683; 0.66776; 0.66835; 0.67282; 0.67216; 0.67736; 0.67853;
    0.00000; 0.74344; 0.73417; 0.72677; 0.71498; 0.71223; 0.69738; 0.69498; 0.68638; 0.68043; 0.67752; 0.66636; 0.65939; 0.65837; 0.65347; 0.64829; 0.64052; 0.63946; 0.63489; 0.63317; 0.63236; 0.63001; 0.63092; 0.62790; 0.62696; 0.62699; 0.62868; 0.62644; 0.63019; 0.62756; 0.62844; 0.62970; 0.63288;
    0.00000; 0.72171; 0.71312; 0.70971; 0.69773; 0.69304; 0.68404; 0.67581; 0.66822; 0.66215; 0.64643; 0.64533; 0.63952; 0.62919; 0.62571; 0.61657; 0.61287; 0.61163; 0.60659; 0.60043; 0.60056; 0.59613; 0.59314; 0.59531; 0.59097; 0.58653; 0.58887; 0.58707; 0.58312; 0.58693; 0.58313; 0.58769; 0.58768;
    0.00000; 0.70441; 0.69851; 0.68953; 0.67907; 0.66470; 0.66519; 0.64720; 0.63870; 0.62979; 0.62773; 0.61570; 0.60607; 0.60026; 0.59848; 0.59096; 0.58486; 0.58225; 0.57697; 0.57144; 0.56465; 0.56027; 0.56087; 0.55532; 0.55602; 0.55249; 0.54832; 0.54709; 0.54598; 0.54351; 0.54184; 0.54134; 0.54273;
    0.00000; 0.68966; 0.67571; 0.66732; 0.65594; 0.64478; 0.63961; 0.62358; 0.61918; 0.60635; 0.59775; 0.59020; 0.57982; 0.57364; 0.56813; 0.56074; 0.55415; 0.54887; 0.54446; 0.53826; 0.53434; 0.52649; 0.52505; 0.52210; 0.51579; 0.51277; 0.51195; 0.50514; 0.50502; 0.50326; 0.49879; 0.49953; 0.49877;
    0.00000; 0.66681; 0.65937; 0.64702; 0.63533; 0.62367; 0.61175; 0.59841; 0.59082; 0.57918; 0.57191; 0.56382; 0.55842; 0.54560; 0.53646; 0.52800; 0.52479; 0.52077; 0.51320; 0.50320; 0.49712; 0.49475; 0.49148; 0.48407; 0.48096; 0.47871; 0.47474; 0.46980; 0.46506; 0.46342; 0.45971; 0.45802; 0.45606;
    0.00000; 0.64732; 0.63242; 0.62413; 0.60357; 0.60198; 0.59127; 0.57660; 0.56489; 0.55434; 0.54392; 0.53386; 0.52663; 0.51371; 0.50742; 0.49963; 0.49469; 0.48512; 0.47991; 0.47011; 0.46808; 0.46357; 0.45838; 0.45362; 0.44792; 0.44437; 0.43621; 0.43344; 0.42984; 0.42421; 0.42137; 0.41664; 0.41707;
    0.00000; 0.62252; 0.61498; 0.59817; 0.58823; 0.56956; 0.56126; 0.54888; 0.53585; 0.52425; 0.51400; 0.50707; 0.49569; 0.48895; 0.47918; 0.47300; 0.46269; 0.45649; 0.45106; 0.44037; 0.43635; 0.43121; 0.42357; 0.41911; 0.41321; 0.40625; 0.39953; 0.39712; 0.39427; 0.38964; 0.38337; 0.38152; 0.37943;
    0.00000; 0.59474; 0.57969; 0.57584; 0.55757; 0.54637; 0.53605; 0.52271; 0.51127; 0.49754; 0.48528; 0.47783; 0.46801; 0.45806; 0.45006; 0.44208; 0.43486; 0.42926; 0.41969; 0.41277; 0.40500; 0.39650; 0.39280; 0.38256; 0.38112; 0.37369; 0.36920; 0.36316; 0.36168; 0.35525; 0.34964; 0.34579; 0.34303;
    0.00000; 0.57758; 0.56217; 0.55254; 0.53528; 0.52106; 0.50656; 0.49792; 0.47830; 0.47319; 0.45925; 0.44927; 0.43787; 0.43241; 0.42233; 0.41142; 0.40254; 0.39635; 0.38720; 0.38202; 0.37763; 0.36690; 0.36002; 0.35406; 0.34894; 0.34297; 0.33854; 0.33175; 0.32604; 0.32019; 0.31625; 0.31480; 0.30903 ].

(** [mBeckmannOneMinusEavg[COMP]]: one minus the average albedo, Beckmann. *)
Definition mBeckmannOneMinusEavg : list float :=
  [ 0.00035; 0.00000; 0.00000; 0.00000; 0.00000; 0.00013; 0.00040; 0.00082; 0.00151; 0.00244; 0.00398; 0.00585; 0.00845; 0.01183; 0.01617; 0.02135; 0.02798; 0.03557; 0.04480; 0.05489; 0.06719; 0.08088; 0.09632; 0.11434; 0.13464; 0.15585; 0.17984; 0.20522; 0.23245; 0.26100; 0.29115; 0.32208; 0.35467 ].

(** [mGGXOneMinusEavg[COMP]]: one minus the average albedo, GGX. *)
Definition mGGXOneMinusEavg : list float :=
  [ 0.00000; 0.00000; 0.00000; 0.00014; 0.00075; 0.00214; 0.00443; 0.00791; 0.01247; 0.01862; 0.02647; 0.03597; 0.04817; 0.06207; 0.07844; 0.09731; 0.11854; 0.14172; 0.16804; 0.19558; 0.22590; 0.25718; 0.29005; 0.32423; 0.35949; 0.39430; 0.42952; 0.46477; 0.49911; 0.53271; 0.56573; 0.59744; 0.62837 ].

(** A table read [t[i]]: undefined past the end of the table. *)
Definition read (t : list float) (i : Z) : option float :=
  if (i <? 0)%Z then None else nth_error t (Z.to_nat i).

(** ** The private helpers *)

(** [rIndex(roughness, weight)]: the returned bucket and the weight written
    through the reference parameter. *)
Definition rIndex (roughness : float) : option (Z * float) :=
  let i := roughness * to_float (wrap (COMP - 1)) in
  let indexI := floor i in
  let weight := i - indexI in
  r <- static_cast_size_t indexI ;;
  Some (r, weight).

(** The three reference parameters that [index] writes. *)
Record Indices : Type := mkIndices {
  w : float;
  iLow : Z;
  iHigh : Z
}.

(** [index(cosTheta, roughness, w, iLow, iHigh)]. *)
Definition index (cosTheta roughness : float) : option Indices :=
  lw <- rIndex roughness ;;
  let lIndex := fst lw in
  let hIndex := min (wrap (lIndex + 1)) (wrap (wrap (COMP * COMP) - 1)) in
  let if1 := fadd (to_float (wrap (lIndex * COMP)))
                  (cosTheta * to_float (wrap (COMP - 1))) in
  let if2 := fadd (to_float (wrap (hIndex * COMP)))
                  (cosTheta * to_float (wrap (COMP - 1))) in
  lo <- static_cast_size_t (ceil if1) ;;
  hi <- static_cast_size_t (ceil if2) ;;
  Some (mkIndices (snd lw) lo hi).

(** ** The accessors *)

(** The two reads and the interpolation of one [case] of the switches. *)
Definition lerp_reads (t : list float) (lo hi : Z) (weight : float)
  : option float :=
  a <- read t lo ;;
  b <- read t hi ;;
  Some (lerp a b weight).

(** [E(type, cosTheta, roughness)]. *)
Definition E (type : MicrofacetDistribution) (cosTheta roughness : float)
  : option float :=
  ix <- index cosTheta roughness ;;
  match type with
  | MICROFACET_DISTRIBUTION_BECKMANN =>
      lerp_reads mBeckmannE (iLow ix) (iHigh ix) (w ix)
  | MICROFACET_DISTRIBUTION_GGX =>
      lerp_reads mGGXE (iLow ix) (iHigh ix) (w ix)
  | MICROFACET_DISTRIBUTION_other _ => Some 0
  end.

(** [oneMinusAvg(type, roughness)]. *)
Definition oneMinusAvg (type : MicrofacetDistribution) (roughness : float)
  : option float :=
  lw <- rIndex roughness ;;
  let lo := fst lw in
  let hi := min (wrap (lo + 1)) (wrap (COMP - 1)) in
  match type with
  | MICROFACET_DISTRIBUTION_BECKMANN =>
      lerp_reads mBeckmannOneMinusEavg lo hi (snd lw)
  | MICROFACET_DISTRIBUTION_GGX =>
      lerp_reads mGGXOneMinusEavg lo hi (snd lw)
  | MICROFACET_DISTRIBUTION_other _ => Some 0
  end.

(** ** Vocabulary of the statements *)

(** The table that each [case] of the switch of [E] reads. *)
Inductive E_table : MicrofacetDistribution -> list float -> Prop :=
  | E_table_Beckmann : E_table MICROFACET_DISTRIBUTION_BECKMANN mBeckmannE
  | E_table_GGX : E_table MICROFACET_DISTRIBUTION_GGX mGGXE.

(** The table that each [case] of the switch of [oneMinusAvg] reads. *)
Inductive oneMinusAvg_table : MicrofacetDistribution -> list float -> Prop :=
  | oneMinusAvg_table_Beckmann :
      oneMinusAvg_table MICROFACET_DISTRIBUTION_BECKMANN mBeckmannOneMinusEavg
  | oneMinusAvg_table_GGX :
      oneMinusAvg_table MICROFACET_DISTRIBUTION_GGX mGGXOneMinusEavg.

(** The index computation in the words of the specification: the roughness
    bucket [rLow] and its weight, the second bucket [rHigh] bounded by
    [COMP*COMP-1], and the ceiling of each bucket's row start plus
    [cosTheta * (COMP-1)].  It is written over unbounded integers and without
    conversions, to be compared with [index]. *)
Definition index_reference (cosTheta roughness : Q) : Indices :=
  let rLow := Qfloor (roughness * inject_Z (COMP - 1)) in
  let weight := roughness * inject_Z (COMP - 1) - inject_Z rLow in
  let rHigh := Z.min (rLow + 1) (COMP * COMP - 1) in
  mkIndices weight
    (Qceiling (inject_Z rLow * inject_Z COMP + cosTheta * inject_Z (COMP - 1)))
    (Qceiling (inject_Z rHigh * inject_Z COMP + cosTheta * inject_Z (COMP - 1))).

(** The same index computation with each of the two sums rounded to
    binary32, as the [float] addition of the source rounds it. *)
Definition index_reference_rounded (cosTheta roughness : Q) : Indices :=
  let rLow := Qfloor (roughness * inject_Z (COMP - 1)) in
  let weight := roughness * inject_Z (COMP - 1) - inject_Z rLow in
  let rHigh := Z.min (rLow + 1) (COMP * COMP - 1) in
  mkIndices weight
    (Qceiling (round_binary32 (inject_Z rLow * inject_Z COMP +
                               cosTheta * inject_Z (COMP - 1))))
    (Qceiling (round_binary32 (inject_Z rHigh * inject_Z COMP +
                               cosTheta * inject_Z (COMP - 1)))).

(** A decidable reading of "every entry lies in [0, 1]". *)
Definition in_unit_interval (x : float) : bool := Qle_bool 0 x && Qle_bool x 1.

(** A decidable reading of "[t[n] <= t[n+1]] for the buckets [n] of [from],
    [from + 1], ..., [from + len - 1]". *)
Definition nondecreasing_from (t : list float) (from len : nat) : bool :=
  forallb (fun n => Qle_bool (nth n t 0) (nth (S n) t 0)) (seq from len).

(** The column [j] of a 2-D table of 33 rows of 33 entries, first row
    first. *)
Definition column (t : list float) (j : nat) : list float :=
  map (fun n => nth (n * 33 + j) t 0) (seq 0 33).

(** A decidable reading of "every entry of the list is [0.0]". *)
Definition all_zero (t : list float) : bool :=
  forallb (fun x => Qeq_bool x 0) t.

(** * binary32 rounding *)

(** ** Powers of two *)

Lemma pow2_pos (k : Z) : 0 < pow2 k.
Proof. apply Qpower_0_lt. reflexivity. Qed.

Lemma pow2_plus (a b : Z) : pow2 (a + b) == pow2 a * pow2 b.
Proof. apply Qpower_plus. discriminate. Qed.

Lemma pow2_le (a b : Z) : (a <= b)%Z -> pow2 a <= pow2 b.
Proof. intros H. apply Qpower_le_compat_l; [exact H | discriminate]. Qed.

Lemma pow2_lt_inv (a b : Z) : pow2 a < pow2 b -> (a < b)%Z.
Proof. intros H. apply (Qpower_lt_compat_l_inv 2); [exact H | reflexivity]. Qed.

Lemma pow2_inject (n : Z) : (0 <= n)%Z -> pow2 n == inject_Z (2 ^ n).
Proof. intros H. symmetry. now apply Zpower_Qpower. Qed.

(** ** Rounding to the nearest integer, ties to even *)

Lemma rne_cases (x : Q) : rne x = Qfloor x \/ rne x = (Qfloor x + 1)%Z.
Proof.
  unfold rne. destruct (Qcompare _ _); [|now left | now right].
  destruct (Z.even _); [now left | now right].
Qed.

Lemma rne_inject_Z (j : Z) : rne (inject_Z j) = j.
Proof.
  unfold rne. rewrite Qfloor_Z.
  destruct (Qcompare_spec (inject_Z j - inject_Z j) (1 # 2)) as [H|H|H];
    [lra | reflexivity | lra].
Qed.

Lemma rne_monotone (x y : Q) : x <= y -> (rne x <= rne y)%Z.
Proof.
  intros Hxy. pose proof (Qfloor_resp_le _ _ Hxy) as Hf.
  destruct (Z.eq_dec (Qfloor x) (Qfloor y)) as [Heq | Hne].
  - unfold rne. rewrite <- Heq.
    destruct (Qcompare_spec (x - inject_Z (Qfloor x)) (1 # 2)) as [Hx|Hx|Hx];
      destruct (Qcompare_spec (y - inject_Z (Qfloor x)) (1 # 2)) as [Hy|Hy|Hy];
      try destruct (Z.even (Qfloor x)); try lia; lra.
  - destruct (rne_cases x) as [-> | ->], (rne_cases y) as [-> | ->]; lia.
Qed.

Lemma rne_comp (x y : Q) : x == y -> rne x = rne y.
Proof.
  intros H. apply Z.le_antisymm; apply rne_monotone; rewrite H; apply Qle_refl.
Qed.

(** ** The exponent of a positive rational *)

Lemma ilog2_spec (m : Q) :
  0 < m -> pow2 (ilog2 m) <= m /\ m < pow2 (ilog2 m + 1).
Proof.
  intros Hm. destruct m as [a b].
  assert (0 < a)%Z as Ha.
  { unfold Qlt in Hm. cbn in Hm. lia. }
  destruct (Z.log2_spec a Ha) as [Ha1 Ha2].
  destruct (Z.log2_spec (Zpos b) (Pos2Z.is_pos b)) as [Hb1 Hb2].
  pose proof (Z.log2_nonneg a) as Hla.
  pose proof (Z.log2_nonneg (Zpos b)) as Hlb.
  rewrite Zle_Qle, <- pow2_inject in Ha1, Hb1 by lia.
  rewrite Zlt_Qlt, <- pow2_inject in Ha2, Hb2 by lia.
  assert (0 < inject_Z (Zpos b)) as HB by reflexivity.
  unfold ilog2. cbn [Qnum Qden].
  set (la := Z.log2 a) in *. set (lb := Z.log2 (Zpos b)) in *.
  assert (a # b < pow2 (la - lb + 1)) as Hupper.
  { rewrite Qmake_Qdiv. apply Qlt_shift_div_r; [exact HB|].
    apply Qlt_le_trans with (pow2 (Z.succ la)); [exact Ha2|].
    replace (Z.succ la) with (la - lb + 1 + lb)%Z by lia.
    rewrite pow2_plus. apply Qmult_le_l; [apply pow2_pos | exact Hb1]. }
  assert (pow2 (la - lb - 1) < a # b) as Hlower.
  { rewrite Qmake_Qdiv. apply Qlt_shift_div_l; [exact HB|].
    apply Qlt_le_trans with (pow2 la); [|exact Ha1].
    replace la with (la - lb - 1 + Z.succ lb)%Z at 2 by lia.
    rewrite pow2_plus. apply Qmult_lt_l; [apply pow2_pos | exact Hb2]. }
  destruct (Qle_bool (pow2 (la - lb)) (a # b)) eqn:Hb.
  - apply Qle_bool_iff in Hb. now split.
  - assert (~ pow2 (la - lb) <= a # b) as Hn
      by (intros H; apply Qle_bool_iff in H; congruence).
    apply Qnot_le_lt in Hn.
    replace (la - lb - 1 + 1)%Z with (la - lb)%Z by lia.
    split; [apply Qlt_le_weak; exact Hlower | exact Hn].
Qed.

Lemma ilog2_monotone (m1 m2 : Q) :
  0 < m1 -> m1 <= m2 -> (ilog2 m1 <= ilog2 m2)%Z.
Proof.
  intros H1 H12. assert (0 < m2) as H2 by lra.
  destruct (@ilog2_spec m1 H1) as [Hl1 _].
  destruct (@ilog2_spec m2 H2) as [_ Hu2].
  assert (ilog2 m1 < ilog2 m2 + 1)%Z; [|lia].
  apply pow2_lt_inv. lra.
Qed.

Lemma ilog2_below (m : Q) (e : Z) :
  0 < m -> m < pow2 e -> (ilog2 m < e)%Z.
Proof.
  intros H0 H. destruct (@ilog2_spec m H0) as [Hl _].
  apply pow2_lt_inv. lra.
Qed.

(** ** Rounding a magnitude *)

Section Magnitude.

Variable m : Q.
Hypothesis m_pos : 0 < m.

Let k : Z := ulp_exponent m.

Lemma ulp_exponent_upper : m < pow2 (k + 24).
Proof.
destruct (@ilog2_spec m m_pos) as [_ Hu].
apply Qlt_le_trans with (pow2 (ilog2 m + 1)); [exact Hu|].
apply pow2_le. unfold k, ulp_exponent. lia.
Qed.

Lemma ulp_exponent_lower : (-149 < k)%Z -> pow2 (k + 23) <= m.
Proof.
intros Hk. destruct (@ilog2_spec m m_pos) as [Hl _].
apply Qle_trans with (pow2 (ilog2 m)); [|exact Hl].
apply pow2_le. unfold k, ulp_exponent in *. lia.
Qed.

Lemma mantissa_upper : m / pow2 k <= inject_Z (2 ^ 24).
Proof.
apply Qle_shift_div_r; [apply pow2_pos|].
rewrite <- pow2_inject, <- pow2_plus by lia.
rewrite Z.add_comm. apply Qlt_le_weak, ulp_exponent_upper.
Qed.

Lemma mantissa_lower : (-149 < k)%Z -> inject_Z (2 ^ 23) <= m / pow2 k.
Proof.
intros Hk. apply Qle_shift_div_l; [apply pow2_pos|].
rewrite <- pow2_inject, <- pow2_plus by lia.
rewrite Z.add_comm. now apply ulp_exponent_lower.
Qed.

Lemma mantissa_nonneg : inject_Z 0 <= m / pow2 k.
Proof.
apply Qle_shift_div_l; [apply pow2_pos|].
change (inject_Z 0) with 0. lra.
Qed.

Lemma round_magnitude_nonneg : 0 <= round_magnitude m.
Proof.
unfold round_magnitude. fold k.
apply Qmult_le_0_compat; [|apply Qlt_le_weak, pow2_pos].
change 0 with (inject_Z 0). rewrite <- Zle_Qle.
rewrite <- (rne_inject_Z 0). apply rne_monotone, mantissa_nonneg.
Qed.

Lemma round_magnitude_upper : round_magnitude m <= pow2 (k + 24).
Proof.
unfold round_magnitude. fold k.
rewrite (Z.add_comm k), pow2_plus. rewrite (@pow2_inject 24) by lia.
apply Qmult_le_compat_r; [|apply Qlt_le_weak, pow2_pos].
rewrite <- Zle_Qle. rewrite <- (rne_inject_Z (2 ^ 24)).
apply rne_monotone, mantissa_upper.
Qed.

Lemma round_magnitude_lower :
(-149 < k)%Z -> pow2 (k + 23) <= round_magnitude m.
Proof.
intros Hk. unfold round_magnitude. fold k.
rewrite (Z.add_comm k), pow2_plus. rewrite (@pow2_inject 23) by lia.
apply Qmult_le_compat_r; [|apply Qlt_le_weak, pow2_pos].
rewrite <- Zle_Qle. rewrite <- (rne_inject_Z (2 ^ 23)).
apply rne_monotone, mantissa_lower, Hk.
Qed.

(** A multiple of a power of two that is at least the unit in the last
  place is not changed. *)
Lemma round_magnitude_exact (j k' : Z) :
m == inject_Z j * pow2 k' -> (k <= k')%Z -> round_magnitude m == m.
Proof.
intros Hm Hk. unfold round_magnitude. fold k.
assert (m / pow2 k == inject_Z (j * 2 ^ (k' - k))) as Hs.
{ rewrite inject_Z_mult, <- pow2_inject by lia.
  rewrite Hm. replace k' with (k' - k + k)%Z at 1 by lia.
  rewrite pow2_plus. field.
  pose proof (pow2_pos k). lra. }
rewrite (@rne_comp _ _ Hs), rne_inject_Z, <- Hs.
field. pose proof (pow2_pos k). lra.
Qed.

End Magnitude.

Lemma round_magnitude_monotone (m1 m2 : Q) :
  0 < m1 -> m1 <= m2 -> round_magnitude m1 <= round_magnitude m2.
Proof.
  intros H1 H12. assert (0 < m2) as H2 by lra.
  pose proof (@ilog2_monotone m1 m2 H1 H12) as He.
  assert (ulp_exponent m1 <= ulp_exponent m2)%Z as Hk
    by (unfold ulp_exponent; lia).
  destruct (Z.eq_dec (ulp_exponent m1) (ulp_exponent m2)) as [Heq | Hne].
  - unfold round_magnitude. rewrite Heq.
    apply Qmult_le_compat_r; [|apply Qlt_le_weak, pow2_pos].
    rewrite <- Zle_Qle. apply rne_monotone.
    apply Qmult_le_compat_r; [exact H12|].
    apply Qlt_le_weak, Qinv_lt_0_compat, pow2_pos.
  - apply Qle_trans with (pow2 (ulp_exponent m1 + 24)).
    { now apply round_magnitude_upper. }
    apply Qle_trans with (pow2 (ulp_exponent m2 + 23)).
    { apply pow2_le. lia. }
    apply round_magnitude_lower; [exact H2|].
    unfold ulp_exponent in *. lia.
Qed.

(** ** binary32 rounding *)

Lemma round_binary32_pos (x : Q) :
  0 < x -> round_binary32 x == round_magnitude x.
Proof.
  intros H. unfold round_binary32. rewrite Qred_correct.
  destruct (Qcompare_spec x 0) as [H'|H'|H']; [lra | lra | reflexivity].
Qed.

Lemma round_binary32_neg (x : Q) :
  x < 0 -> round_binary32 x == - round_magnitude (- x).
Proof.
  intros H. unfold round_binary32. rewrite Qred_correct.
  destruct (Qcompare_spec x 0) as [H'|H'|H']; [lra | reflexivity | lra].
Qed.

Lemma round_binary32_zero (x : Q) : x == 0 -> round_binary32 x == 0.
Proof.
  intros H. unfold round_binary32. rewrite Qred_correct.
  destruct (Qcompare_spec x 0) as [H'|H'|H']; [reflexivity | lra | lra].
Qed.

Lemma round_binary32_monotone (x y : Q) :
  x <= y -> round_binary32 x <= round_binary32 y.
Proof.
  intros Hxy.
  destruct (Q_dec x 0) as [[Hx | Hx] | Hx]; destruct (Q_dec y 0) as [[Hy | Hy] | Hy];
    try lra.
  - rewrite (@round_binary32_neg x Hx), (@round_binary32_neg y Hy).
    assert (round_magnitude (- y) <= round_magnitude (- x))
      by (apply round_magnitude_monotone; lra).
    lra.
  - rewrite (@round_binary32_neg x Hx), (@round_binary32_pos y Hy).
    assert (0 <= round_magnitude (- x)) by (apply round_magnitude_nonneg; lra).
    assert (0 <= round_magnitude y) by (apply round_magnitude_nonneg; lra).
    lra.
  - rewrite (@round_binary32_neg x Hx), (@round_binary32_zero y Hy).
    assert (0 <= round_magnitude (- x)) by (apply round_magnitude_nonneg; lra).
    lra.
  - rewrite (@round_binary32_pos x Hx), (@round_binary32_pos y Hy).
    now apply round_magnitude_monotone.
  - rewrite (@round_binary32_zero x Hx), (@round_binary32_pos y Hy).
    apply round_magnitude_nonneg; lra.
  - rewrite (@round_binary32_zero x Hx), (@round_binary32_zero y Hy). lra.
Qed.

(** Halves of integers below [2^24], so integers below [2^23] too, are
    binary32 values. *)
Lemma round_magnitude_half (j : Z) :
  (0 < j < 2 ^ 24)%Z ->
  round_magnitude (inject_Z j * pow2 (-1)) == inject_Z j * pow2 (-1).
Proof.
  intros Hj.
  assert (0 < inject_Z j * pow2 (-1)) as Hpos.
  { apply Qmult_lt_0_compat; [|apply pow2_pos].
    change 0 with (inject_Z 0). rewrite <- Zlt_Qlt. lia. }
  apply (@round_magnitude_exact _ j (-1)); [reflexivity|].
  assert (ilog2 (inject_Z j * pow2 (-1)) < 23)%Z; [|unfold ulp_exponent; lia].
  apply ilog2_below; [exact Hpos|].
  replace 23%Z with (24 + -1)%Z by lia. rewrite pow2_plus.
  apply Qmult_lt_compat_r; [apply pow2_pos|].
  rewrite pow2_inject, <- Zlt_Qlt by lia. lia.
Qed.

Lemma round_binary32_half (j : Z) :
  (- 2 ^ 24 < j < 2 ^ 24)%Z ->
  round_binary32 (inject_Z j * (1 # 2)) == inject_Z j * (1 # 2).
Proof.
  intros Hj. change (1 # 2) with (pow2 (-1)).
  destruct (Z.lt_trichotomy j 0) as [Hneg | [-> | Hpos]].
  - assert (inject_Z j * pow2 (-1) < 0) as Hlt.
    { assert (inject_Z j < inject_Z 0) as H by (rewrite <- Zlt_Qlt; lia).
      change (inject_Z 0) with 0 in H. change (pow2 (-1)) with (1 # 2). lra. }
    rewrite (@round_binary32_neg _ Hlt).
    assert (- (inject_Z j * pow2 (-1)) == inject_Z (- j) * pow2 (-1)) as Ho
      by (rewrite inject_Z_opp; ring).
    assert (round_magnitude (- (inject_Z j * pow2 (-1)))
            == - (inject_Z j * pow2 (-1))) as Hr.
    { assert (0 < - (inject_Z j * pow2 (-1))) as Hp by lra.
      apply (@round_magnitude_exact _ (- j) (-1)); [exact Ho|].
      assert (ilog2 (- (inject_Z j * pow2 (-1))) < 23)%Z;
        [|unfold ulp_exponent; lia].
      apply ilog2_below; [exact Hp|]. rewrite Ho.
      replace 23%Z with (24 + -1)%Z by lia. rewrite pow2_plus.
      apply Qmult_lt_compat_r; [apply pow2_pos|].
      rewrite pow2_inject, <- Zlt_Qlt by lia. lia. }
    rewrite Hr. ring.
  - rewrite round_binary32_zero; reflexivity.
  - assert (0 < inject_Z j * pow2 (-1)) as Hgt.
    { apply Qmult_lt_0_compat; [|apply pow2_pos].
      change 0 with (inject_Z 0). rewrite <- Zlt_Qlt. lia. }
    rewrite (@round_binary32_pos _ Hgt). apply round_magnitude_half. lia.
Qed.

Lemma round_binary32_integer (n : Z) :
  (- 2 ^ 23 < n < 2 ^ 23)%Z -> round_binary32 (inject_Z n) == inject_Z n.
Proof.
  intros Hn.
  assert (inject_Z n == inject_Z (2 * n) * (1 # 2)) as H
    by (rewrite inject_Z_mult; change (inject_Z 2) with 2; ring).
  assert (round_binary32 (inject_Z n) == round_binary32 (inject_Z (2 * n) * (1 # 2))) as Hr.
  { apply Qle_antisym; apply round_binary32_monotone; rewrite H; apply Qle_refl. }
  rewrite Hr, round_binary32_half by lia. symmetry. exact H.
Qed.

(** ** What the index computation needs of the rounding *)

Lemma Qred_inject_Z (z : Z) : Qred (inject_Z z) = inject_Z z.
Proof.
  unfold Qred, inject_Z.
  pose proof (Z.ggcd_gcd z 1) as Hg.
  pose proof (Z.ggcd_correct_divisors z 1) as Hd.
  destruct (Z.ggcd z 1) as [g [aa bb]]. cbn [fst snd] in *.
  rewrite Z.gcd_1_r in Hg. subst g. destruct Hd as [Ha Hb].
  assert (aa = z) as -> by lia. assert (bb = 1%Z) as -> by lia.
  reflexivity.
Qed.

Lemma round_binary32_canonical (x : Q) :
  Qred (round_binary32 x) = round_binary32 x.
Proof. unfold round_binary32. apply Qred_complete, Qred_correct. Qed.

Lemma round_binary32_comp (x y : Q) :
  x == y -> round_binary32 x = round_binary32 y.
Proof.
  intros H. rewrite <- (round_binary32_canonical x).
  rewrite <- (round_binary32_canonical y). apply Qred_complete.
  apply Qle_antisym; apply round_binary32_monotone; rewrite H; apply Qle_refl.
Qed.

Lemma round_binary32_integer_eq (n : Z) :
  (- 2 ^ 23 < n < 2 ^ 23)%Z -> round_binary32 (inject_Z n) = inject_Z n.
Proof.
  intros Hn. pose proof (round_binary32_integer Hn) as H.
  apply Qred_complete in H. rewrite Qred_inject_Z in H.
  now rewrite <- round_binary32_canonical.
Qed.

Lemma to_float_small (z : Z) :
  (- 2 ^ 23 < z < 2 ^ 23)%Z -> to_float z = inject_Z z.
Proof. apply round_binary32_integer_eq. Qed.

Lemma round_ge_half (j : Z) (x : Q) :
  (- 2 ^ 24 < j < 2 ^ 24)%Z ->
  inject_Z j * (1 # 2) <= x -> inject_Z j * (1 # 2) <= round_binary32 x.
Proof.
  intros Hj Hx. rewrite <- (round_binary32_half Hj).
  now apply round_binary32_monotone.
Qed.

Lemma round_le_half (j : Z) (x : Q) :
  (- 2 ^ 24 < j < 2 ^ 24)%Z ->
  x <= inject_Z j * (1 # 2) -> round_binary32 x <= inject_Z j * (1 # 2).
Proof.
  intros Hj Hx. rewrite <- (round_binary32_half Hj).
  now apply round_binary32_monotone.
Qed.

Lemma round_ge_integer (n : Z) (x : Q) :
  (- 2 ^ 23 < n < 2 ^ 23)%Z ->
  inject_Z n <= x -> inject_Z n <= round_binary32 x.
Proof.
  intros Hn Hx. rewrite <- (round_binary32_integer Hn).
  now apply round_binary32_monotone.
Qed.

Lemma round_le_integer (n : Z) (x : Q) :
  (- 2 ^ 23 < n < 2 ^ 23)%Z ->
  x <= inject_Z n -> round_binary32 x <= inject_Z n.
Proof.
  intros Hn Hx. rewrite <- (round_binary32_integer Hn).
  now apply round_binary32_monotone.
Qed.

(** The ceiling of a rounded sum whose exact value lies between two
    integers lies between them. *)
Lemma ceil_fadd_range (n lo hi : Z) (y : float) :
  (- 2 ^ 23 < n + lo)%Z -> (n + hi < 2 ^ 23)%Z ->
  inject_Z lo <= y -> y <= inject_Z hi ->
  (n + lo <= Qceiling (fadd (inject_Z n) y) <= n + hi)%Z.
Proof.
  intros Hlo Hhi Hy1 Hy2. unfold fadd.
  assert (lo <= hi)%Z as Hlh by (rewrite Zle_Qle; lra).
  split.
  - rewrite <- (Qceiling_Z (n + lo)). apply Qceiling_resp_le.
    apply round_ge_integer; [lia|]. rewrite inject_Z_plus. lra.
  - rewrite <- (Qceiling_Z (n + hi)). apply Qceiling_resp_le.
    apply round_le_integer; [lia|]. rewrite inject_Z_plus. lra.
Qed.

(** A sum whose exact value is at most one half below an integer has that
    integer for the ceiling of its rounded value. *)
Lemma ceil_fadd_half_cell (n K : Z) (y : float) :
  (- 2 ^ 22 < n + K < 2 ^ 22)%Z ->
  inject_Z K - (1 # 2) <= y -> y <= inject_Z K ->
  Qceiling (fadd (inject_Z n) y) = (n + K)%Z.
Proof.
  intros HN Hy1 Hy2. unfold fadd.
  assert (inject_Z (2 * (n + K) - 1) * (1 # 2)
          == inject_Z n + inject_Z K - (1 # 2)) as Hhalf.
  { unfold Z.sub. rewrite inject_Z_plus, inject_Z_mult, inject_Z_plus.
    change (inject_Z (- (1))) with (- (1)). change (inject_Z 2) with 2. ring. }
  assert (inject_Z (2 * (n + K) - 1) * (1 # 2)
          <= round_binary32 (inject_Z n + y)) as Hlow.
  { apply round_ge_half; [lia|]. rewrite Hhalf. lra. }
  assert (round_binary32 (inject_Z n + y) <= inject_Z (n + K)) as Hup.
  { apply round_le_integer; [lia|]. rewrite inject_Z_plus. lra. }
  apply Z.le_antisymm.
  - rewrite <- (Qceiling_Z (n + K)). now apply Qceiling_resp_le.
  - assert (n + K - 1 < Qceiling (round_binary32 (inject_Z n + y)))%Z; [|lia].
    rewrite Zlt_Qlt.
    apply Qlt_le_trans with (round_binary32 (inject_Z n + y));
      [|apply Qle_ceiling].
    apply Qlt_le_trans with (inject_Z (2 * (n + K) - 1) * (1 # 2));
      [|exact Hlow].
    rewrite Hhalf. unfold Z.sub. rewrite !inject_Z_plus.
    change (inject_Z (- (1))) with (- (1)). lra.
Qed.

(** Rounding moves the ceiling by at most one, and never up. *)
Lemma ceil_fadd_exact_or_one_less (n : Z) (y : float) :
  (- 2 ^ 23 < Qceiling (inject_Z n + y) - 1)%Z ->
  (Qceiling (inject_Z n + y) < 2 ^ 23)%Z ->
  (Qceiling (inject_Z n + y) - 1 <= Qceiling (fadd (inject_Z n) y)
   <= Qceiling (inject_Z n + y))%Z.
Proof.
  intros Hlo Hhi. unfold fadd.
  set (s := inject_Z n + y) in *.
  pose proof (Qle_ceiling s) as Hs1. pose proof (Qceiling_lt s) as Hs2.
  split.
  - rewrite <- (Qceiling_Z (Qceiling s - 1)) at 1. apply Qceiling_resp_le.
    apply round_ge_integer; [lia | lra].
  - rewrite <- (Qceiling_Z (Qceiling s)) at 1. apply Qceiling_resp_le.
    apply round_le_integer; [lia | exact Hs1].
Qed.

(** ** Conversions and wrap-around on small values *)

Lemma wrap_small (z : Z) :
  (0 <= z < size_t_modulus)%Z -> wrap z = z.
Proof. intros Hz. unfold wrap. now apply Z.mod_small. Qed.

Lemma truncate_inject_Z (z : Z) : truncate (inject_Z z) = z.
Proof. unfold truncate, inject_Z. simpl. now rewrite Z.quot_1_r. Qed.

Lemma static_cast_size_t_inject_Z (z : Z) :
  (0 <= z < size_t_modulus)%Z -> static_cast_size_t (inject_Z z) = Some z.
Proof.
  intros [Hlo Hhi]. unfold static_cast_size_t.
  rewrite truncate_inject_Z.
  apply Z.leb_le in Hlo. apply Z.ltb_lt in Hhi.
  now rewrite Hlo, Hhi.
Qed.

Lemma static_cast_size_t_range (x : float) (z : Z) :
  static_cast_size_t x = Some z -> (0 <= z < size_t_modulus)%Z.
Proof.
  unfold static_cast_size_t.
  destruct ((0 <=? truncate x) && (truncate x <? size_t_modulus))%Z eqn:Hb;
    [|discriminate].
  intros [= <-]. apply andb_true_iff in Hb as [Hlo Hhi].
  apply Z.leb_le in Hlo. apply Z.ltb_lt in Hhi. lia.
Qed.

Lemma comp_minus_1 : to_float (wrap (COMP - 1)) = inject_Z 32.
Proof. reflexivity. Qed.

(** ** The roughness bucket *)

Section Bucket.

Variable roughness : float.
Hypothesis roughness_lo : 0 <= roughness.
Hypothesis roughness_hi : roughness <= 1.

Let i : float := roughness * inject_Z 32.

Lemma scaled_range : 0 <= i /\ i <= inject_Z 32.
Proof.
  unfold i. change (inject_Z 32) with 32. split; lra.
Qed.

Lemma bucket_range : (0 <= Qfloor i <= 32)%Z.
Proof.
  destruct scaled_range as [Hlo Hhi]. split.
  - change 0%Z with (Qfloor 0). now apply Qfloor_resp_le.
  - rewrite <- (Qfloor_Z 32). now apply Qfloor_resp_le.
Qed.

Lemma weight_range : 0 <= i - inject_Z (Qfloor i) /\ i - inject_Z (Qfloor i) < 1.
Proof.
  pose proof (Qfloor_le i) as Hle.
  pose proof (Qlt_floor i) as Hlt.
  rewrite inject_Z_plus in Hlt. change (inject_Z 1) with 1 in Hlt.
  split; lra.
Qed.

Lemma rIndex_in_range :
  rIndex roughness = Some (Qfloor i, i - inject_Z (Qfloor i)).
Proof.
  unfold rIndex. rewrite comp_minus_1. fold i. unfold floor.
  rewrite static_cast_size_t_inject_Z; [reflexivity|].
  pose proof bucket_range. unfold size_t_modulus. lia.
Qed.

End Bucket.
(** ** Table reads *)

Lemma read_defined (t : list float) (i : Z) :
  (0 <= i < Z.of_nat (length t))%Z ->
  read t i = Some (nth (Z.to_nat i) t 0).
Proof.
  intros [Hlo Hhi]. unfold read.
  apply Z.ltb_ge in Hlo. rewrite Hlo.
  apply nth_error_nth'. apply Z.ltb_ge in Hlo. lia.
Qed.

Lemma read_past_end (t : list float) (i : Z) :
  (Z.of_nat (length t) <= i)%Z -> read t i = None.
Proof.
  intros Hi. unfold read.
  destruct (i <? 0)%Z; [reflexivity|].
  apply nth_error_None. lia.
Qed.

(** ** The flattened indices *)

Lemma Qceiling_range (x : float) (lo hi : Z) :
  inject_Z lo <= x -> x <= inject_Z hi -> (lo <= Qceiling x <= hi)%Z.
Proof.
  intros Hlo Hhi. split.
  - rewrite <- (Qceiling_Z lo). now apply Qceiling_resp_le.
  - rewrite <- (Qceiling_Z hi). now apply Qceiling_resp_le.
Qed.

Lemma flat_range (cosTheta : float) (row : Z) :
  0 <= cosTheta -> cosTheta <= 1 -> (0 <= row <= 33)%Z ->
  (row * 33
   <= Qceiling (fadd (inject_Z (row * 33)) (cosTheta * inject_Z 32)%Q)
   <= row * 33 + 32)%Z.
Proof.
  intros Hc0 Hc1 Hrow.
  pose proof (@ceil_fadd_range (row * 33) 0 32 (cosTheta * inject_Z 32)) as H.
  rewrite Z.add_0_r in H. apply H; [lia | lia | |];
    change (inject_Z 32) with 32; change (inject_Z 0) with 0; lra.
Qed.

Section Flattened.

Variables cosTheta roughness : float.
Hypothesis cosTheta_lo : 0 <= cosTheta.
Hypothesis cosTheta_hi : cosTheta <= 1.
Hypothesis roughness_lo : 0 <= roughness.
Hypothesis roughness_hi : roughness <= 1.

Let i : float := roughness * inject_Z 32.
Let l : Z := Qfloor i.

(** The offset that [cosTheta] adds to a row start. *)
Let col : float := cosTheta * inject_Z 32.

Lemma col_range : 0 <= col /\ col <= inject_Z 32.
Proof. unfold col. change (inject_Z 32) with 32. split; lra. Qed.

Lemma index_in_range :
  index cosTheta roughness =
  Some (mkIndices (i - inject_Z l)
                  (Qceiling (fadd (inject_Z (l * 33)) col))
                  (Qceiling (fadd (inject_Z ((l + 1) * 33)) col))).
Proof.
  pose proof (bucket_range roughness_lo roughness_hi) as Hl.
  fold i in Hl. fold l in Hl.
  unfold index. rewrite (rIndex_in_range roughness_lo roughness_hi).
  fold i. fold l. unfold bind at 1. cbn [fst snd].
  rewrite comp_minus_1. fold col.
  change (wrap (wrap (COMP * COMP) - 1)) with 1088%Z.
  change COMP with 33%Z.
  rewrite (wrap_small (z := l + 1)) by (unfold size_t_modulus; lia).
  unfold min. rewrite Z.min_l by lia.
  rewrite (wrap_small (z := l * 33)) by (unfold size_t_modulus; lia).
  rewrite (wrap_small (z := (l + 1) * 33)) by (unfold size_t_modulus; lia).
  rewrite !to_float_small by lia. unfold ceil.
  assert (0 <= l <= 33)%Z as Hrow1 by lia.
  assert (0 <= l + 1 <= 33)%Z as Hrow2 by lia.
  pose proof (@flat_range cosTheta l cosTheta_lo cosTheta_hi Hrow1) as H1.
  pose proof (@flat_range cosTheta (l + 1) cosTheta_lo cosTheta_hi Hrow2)
    as H2.
  fold col in H1, H2.
  rewrite !static_cast_size_t_inject_Z by (unfold size_t_modulus; lia).
  reflexivity.
Qed.

End Flattened.
(** ** Linear interpolation *)

Lemma lerp_weight_0 (a b t : float) : t == 0 -> lerp a b t == a.
Proof. intros Ht. unfold lerp. rewrite Ht. ring. Qed.

Lemma lerp_between (a b t : float) :
  0 <= t -> t <= 1 -> a <= b -> a <= lerp a b t /\ lerp a b t <= b.
Proof.
  intros Ht0 Ht1 Hab. unfold lerp.
  assert (0 <= t * (b - a)) as H1 by (apply Qmult_le_0_compat; lra).
  assert (0 <= (1 - t) * (b - a)) as H2 by (apply Qmult_le_0_compat; lra).
  split; lra.
Qed.

Lemma lerp_between_minmax (a b t : float) :
  0 <= t -> t <= 1 -> Qmin a b <= lerp a b t /\ lerp a b t <= Qmax a b.
Proof.
  intros Ht0 Ht1.
  destruct (Qlt_le_dec b a) as [Hba | Hab].
  - rewrite (Q.min_r a b), (Q.max_l a b) by lra.
    unfold lerp.
    assert (0 <= t * (a - b)) as H1 by (apply Qmult_le_0_compat; lra).
    assert (0 <= (1 - t) * (a - b)) as H2 by (apply Qmult_le_0_compat; lra).
    split; lra.
  - rewrite (Q.min_l a b), (Q.max_r a b) by lra.
    now apply lerp_between.
Qed.

Lemma lerp_weight_le (a b s t : float) :
  a <= b -> s <= t -> lerp a b s <= lerp a b t.
Proof.
  intros Hab Hst. unfold lerp.
  assert (0 <= (t - s) * (b - a)) as H by (apply Qmult_le_0_compat; lra).
  lra.
Qed.

Lemma lerp_reads_defined (t : list float) (lo hi : Z) (weight : float) :
  (0 <= lo < Z.of_nat (length t))%Z ->
  (0 <= hi < Z.of_nat (length t))%Z ->
  lerp_reads t lo hi weight =
  Some (lerp (nth (Z.to_nat lo) t 0) (nth (Z.to_nat hi) t 0) weight).
Proof.
  intros Hlo Hhi. unfold lerp_reads.
  now rewrite (read_defined t Hlo), (read_defined t Hhi).
Qed.

Lemma E_table_length (type : MicrofacetDistribution) (t : list float) :
  E_table type t -> length t = 1089%nat.
Proof. intros []; reflexivity. Qed.

Lemma oneMinusAvg_table_length (type : MicrofacetDistribution) (t : list float) :
  oneMinusAvg_table type t -> length t = 33%nat.
Proof. intros []; reflexivity. Qed.

Lemma E_reads (type : MicrofacetDistribution) (t : list float)
      (cosTheta roughness : float) :
  E_table type t ->
  E type cosTheta roughness =
  (ix <- index cosTheta roughness ;; lerp_reads t (iLow ix) (iHigh ix) (w ix)).
Proof. intros []; reflexivity. Qed.

Lemma oneMinusAvg_reads (type : MicrofacetDistribution) (t : list float)
      (roughness : float) :
  oneMinusAvg_table type t ->
  oneMinusAvg type roughness =
  (lw <- rIndex roughness ;;
   lerp_reads t (fst lw) (min (wrap (fst lw + 1)) (wrap (COMP - 1))) (snd lw)).
Proof. intros []; reflexivity. Qed.

(** ** [oneMinusAvg] on in-range roughness *)

Section OneMinusAvg.

Variable type : MicrofacetDistribution.
Variable t : list float.
Hypothesis type_table : oneMinusAvg_table type t.

Variable roughness : float.
Hypothesis roughness_lo : 0 <= roughness.
Hypothesis roughness_hi : roughness <= 1.

Let i : float := roughness * inject_Z 32.
Let l : Z := Qfloor i.

Lemma high_bucket :
  min (wrap (l + 1)) (wrap (COMP - 1)) = Z.min (l + 1) 32.
Proof.
  pose proof (bucket_range roughness_lo roughness_hi) as Hl.
  fold i in Hl. fold l in Hl.
  change (wrap (COMP - 1)) with 32%Z. unfold min.
  now rewrite wrap_small by (unfold size_t_modulus; lia).
Qed.

Lemma oneMinusAvg_in_range :
  oneMinusAvg type roughness =
  Some (lerp (nth (Z.to_nat l) t 0)
             (nth (Z.to_nat (Z.min (l + 1) 32)) t 0)
             (i - inject_Z l)).
Proof.
  pose proof (bucket_range roughness_lo roughness_hi) as Hl.
  fold i in Hl. fold l in Hl.
  rewrite (oneMinusAvg_reads roughness type_table).
  rewrite (rIndex_in_range roughness_lo roughness_hi).
  fold i. fold l. unfold bind. cbn [fst snd].
  rewrite high_bucket.
  apply lerp_reads_defined;
    rewrite (oneMinusAvg_table_length type_table); lia.
Qed.

End OneMinusAvg.

(** ** The unsupported variants *)

(** C6: for [cosTheta] and [roughness] in [0, 1] and a variant that is
    neither Beckmann nor GGX, [E] returns [0.0]; it has a defined result, and
    the code has no other way to report anything. *)
Theorem E_unsupported_variant (raw : Z) (cosTheta roughness : float) :
  0 <= cosTheta -> cosTheta <= 1 -> 0 <= roughness -> roughness <= 1 ->
  E (MICROFACET_DISTRIBUTION_other raw) cosTheta roughness = Some 0.
Proof.
  intros Hc0 Hc1 Hr0 Hr1. unfold E.
  now rewrite (index_in_range Hc0 Hc1 Hr0 Hr1).
Qed.

Lemma E_unsupported_variant_witness :
  (0 <= 1 # 4 /\ 1 # 4 <= 1 /\ 0 <= 1 /\ 1 <= 1) /\
  E (MICROFACET_DISTRIBUTION_other 7) (1 # 4) 1 = Some 0.
Proof.
  split.
  - repeat split; discriminate.
  - apply (@E_unsupported_variant 7 (1 # 4) 1); discriminate.
Defined.

(** ** The 1-D indices *)

(** C10: for every variant and every [roughness] in [0, 1], the endpoint [1]
    included, [oneMinusAvg] uses the indices
    [floor(roughness*(COMP-1))] and [min(iLow+1, COMP-1)]; both lie in
    [0, COMP-1], so both reads of the variant's table of [COMP] entries are
    inside the table and the call has a defined result. *)
Theorem oneMinusAvg_indices_in_bounds
        (type : MicrofacetDistribution) (roughness : float) :
  0 <= roughness -> roughness <= 1 ->
  exists lo weight,
    rIndex roughness = Some (lo, weight) /\
    lo = Qfloor (roughness * inject_Z (COMP - 1)) /\
    min (wrap (lo + 1)) (wrap (COMP - 1)) = Z.min (lo + 1) (COMP - 1) /\
    (0 <= lo <= COMP - 1)%Z /\
    (0 <= Z.min (lo + 1) (COMP - 1) <= COMP - 1)%Z /\
    (forall t, oneMinusAvg_table type t ->
       Z.of_nat (length t) = COMP /\
       read t lo <> None /\
       read t (Z.min (lo + 1) (COMP - 1)) <> None) /\
    oneMinusAvg type roughness <> None.
Proof.
  intros Hr0 Hr1.
  pose proof (bucket_range Hr0 Hr1) as Hl.
  exists (Qfloor (roughness * inject_Z 32)).
  exists (roughness * inject_Z 32 -
          inject_Z (Qfloor (roughness * inject_Z 32))).
  change (COMP - 1)%Z with 32%Z.
  split; [exact (rIndex_in_range Hr0 Hr1)|].
  split; [reflexivity|].
  split; [exact (high_bucket Hr0 Hr1)|].
  split; [exact Hl|].
  split; [lia|].
  split.
  - intros t Ht. pose proof (oneMinusAvg_table_length Ht) as Hlen.
    split; [rewrite Hlen; reflexivity|].
    split; rewrite read_defined by (rewrite Hlen; lia); discriminate.
  - destruct type as [| |raw].
    + rewrite (oneMinusAvg_in_range oneMinusAvg_table_Beckmann Hr0 Hr1).
      discriminate.
    + rewrite (oneMinusAvg_in_range oneMinusAvg_table_GGX Hr0 Hr1).
      discriminate.
    + unfold oneMinusAvg. rewrite (rIndex_in_range Hr0 Hr1). discriminate.
Qed.

Lemma oneMinusAvg_indices_in_bounds_witness :
  (0 <= 1 /\ 1 <= 1) /\
  exists lo weight,
    rIndex 1 = Some (lo, weight) /\
    lo = Qfloor (1 * inject_Z (COMP - 1)) /\
    min (wrap (lo + 1)) (wrap (COMP - 1)) = Z.min (lo + 1) (COMP - 1) /\
    (0 <= lo <= COMP - 1)%Z /\
    (0 <= Z.min (lo + 1) (COMP - 1) <= COMP - 1)%Z /\
    (forall t, oneMinusAvg_table MICROFACET_DISTRIBUTION_BECKMANN t ->
       Z.of_nat (length t) = COMP /\
       read t lo <> None /\
       read t (Z.min (lo + 1) (COMP - 1)) <> None) /\
    oneMinusAvg MICROFACET_DISTRIBUTION_BECKMANN 1 <> None.
Proof.
  split.
  - split; discriminate.
  - apply (@oneMinusAvg_indices_in_bounds MICROFACET_DISTRIBUTION_BECKMANN 1);
      discriminate.
Defined.

(** ** Grid samples *)

Section GridSample.

(** A value [x] that is the grid sample [k/(COMP-1)]. *)
Variable x : float.
Variable k : Z.
Hypothesis k_range : (0 <= k <= 32)%Z.
Hypothesis x_sample : x == inject_Z k / inject_Z 32.

Lemma sample_scaled : x * inject_Z 32 == inject_Z k.
Proof. rewrite x_sample. field. Qed.

Lemma sample_range : 0 <= x /\ x <= 1.
Proof.
  pose proof sample_scaled as Hs.
  destruct k_range as [Hk0 Hk1].
  rewrite Zle_Qle in Hk0. rewrite Zle_Qle in Hk1.
  change (inject_Z 0) with 0 in Hk0.
  change (inject_Z 32) with 32 in *.
  split; lra.
Qed.

Lemma sample_bucket : Qfloor (x * inject_Z 32) = k.
Proof. rewrite (Qfloor_comp _ _ sample_scaled). apply Qfloor_Z. Qed.

Lemma sample_weight : x * inject_Z 32 - inject_Z k == 0.
Proof. rewrite sample_scaled. ring. Qed.

Lemma sample_rIndex :
  rIndex x = Some (k, x * inject_Z 32 - inject_Z k).
Proof.
  destruct sample_range as [Hlo Hhi].
  rewrite (rIndex_in_range Hlo Hhi). now rewrite sample_bucket.
Qed.

Lemma sample_flat (row : Z) :
  (0 <= row <= 33)%Z ->
  Qceiling (fadd (inject_Z (row * 33)) (x * inject_Z 32))
  = (row * 33 + k)%Z.
Proof.
  intros Hrow. pose proof sample_scaled as Hs.
  apply ceil_fadd_half_cell; [lia | lra | lra].
Qed.

End GridSample.

(** C5: for either variant and a roughness that is the grid sample
    [k/(COMP-1)], [k] in [0, COMP-1], the weight that [rIndex] computes is
    [0] and [oneMinusAvg] returns the entry [k] of the variant's 1-D table. *)
Theorem oneMinusAvg_on_grid
        (type : MicrofacetDistribution) (t : list float)
        (k : Z) (roughness : float) :
  oneMinusAvg_table type t ->
  (0 <= k <= COMP - 1)%Z ->
  roughness == inject_Z k / inject_Z (COMP - 1) ->
  exists weight entry e,
    rIndex roughness = Some (k, weight) /\ weight == 0 /\
    read t k = Some entry /\
    oneMinusAvg type roughness = Some e /\ e == entry.
Proof.
  change (COMP - 1)%Z with 32%Z. intros Ht Hk Hr.
  destruct (sample_range Hk Hr) as [Hr0 Hr1].
  exists (roughness * inject_Z 32 - inject_Z k).
  exists (nth (Z.to_nat k) t 0).
  exists (lerp (nth (Z.to_nat k) t 0)
               (nth (Z.to_nat (Z.min (k + 1) 32)) t 0)
               (roughness * inject_Z 32 - inject_Z k)).
  split; [exact (sample_rIndex Hk Hr)|].
  split; [exact (sample_weight Hr)|].
  split.
  { apply read_defined. rewrite (oneMinusAvg_table_length Ht). lia. }
  split.
  - rewrite (oneMinusAvg_in_range Ht Hr0 Hr1).
    now rewrite (sample_bucket Hr).
  - apply lerp_weight_0. exact (sample_weight Hr).
Qed.

Lemma oneMinusAvg_on_grid_witness :
  (oneMinusAvg_table MICROFACET_DISTRIBUTION_BECKMANN mBeckmannOneMinusEavg /\
   (0 <= 5 <= COMP - 1)%Z /\
   5 # 32 == inject_Z 5 / inject_Z (COMP - 1)) /\
  exists weight entry e,
    rIndex (5 # 32) = Some (5%Z, weight) /\ weight == 0 /\
    read mBeckmannOneMinusEavg 5 = Some entry /\
    oneMinusAvg MICROFACET_DISTRIBUTION_BECKMANN (5 # 32) = Some e /\
    e == entry.
Proof.
  split.
  - split; [constructor|]. split; [split; discriminate | reflexivity].
  - apply (@oneMinusAvg_on_grid MICROFACET_DISTRIBUTION_BECKMANN
             mBeckmannOneMinusEavg 5 (5 # 32)).
    + constructor.
    + split; discriminate.
    + reflexivity.
Defined.

(** C8: [oneMinusAvg(GGX, 1.0)] is [0.62837], the entry [COMP-1 = 32] of
    [mGGXOneMinusEavg] and its last one; the low index is [32] with weight
    [0], and the high index [33] is cut back to [COMP-1]. *)
Theorem oneMinusAvg_GGX_roughness_1 :
  (exists weight, rIndex 1 = Some (32%Z, weight) /\ weight == 0) /\
  wrap (32 + 1) = 33%Z /\
  min (wrap (32 + 1)) (wrap (COMP - 1)) = 32%Z /\
  length mGGXOneMinusEavg = 33%nat /\
  read mGGXOneMinusEavg 32 = Some 0.62837 /\
  exists e, oneMinusAvg MICROFACET_DISTRIBUTION_GGX 1 = Some e /\
            e == 0.62837.
Proof.
  split; [eexists; split; [vm_compute; reflexivity | reflexivity]|].
  repeat (split; [reflexivity|]).
  eexists; split; [vm_compute; reflexivity | reflexivity].
Qed.

(** C7: [E(GGX, cosTheta = 1.0, roughness = 0.0)] is [1.00000], the entry of
    [mGGXE] at the flattened index [COMP-1 = 32], the last column of row
    [0]. *)
Theorem E_GGX_cosTheta_1_roughness_0 :
  (exists weight,
     index 1 0 = Some (mkIndices weight 32 65) /\ weight == 0) /\
  (COMP - 1 = 32)%Z /\
  read mGGXE 32 = Some 1.00000 /\
  exists e, E MICROFACET_DISTRIBUTION_GGX 1 0 = Some e /\ e == 1.00000.
Proof.
  split; [eexists; split; [vm_compute; reflexivity | reflexivity]|].
  repeat (split; [reflexivity|]).
  eexists; split; [vm_compute; reflexivity | reflexivity].
Qed.

(** ** The table data *)

Lemma in_unit_interval_spec (x : float) :
  in_unit_interval x = true -> 0 <= x /\ x <= 1.
Proof.
  unfold in_unit_interval. intros H.
  apply andb_true_iff in H as [H0 H1].
  split; now apply Qle_bool_iff.
Qed.

Lemma forallb_in_unit_interval (t : list float) :
  forallb in_unit_interval t = true -> Forall (fun x => 0 <= x /\ x <= 1) t.
Proof.
  intros H. apply Forall_forall. intros x Hx.
  apply in_unit_interval_spec.
  now apply (proj1 (forallb_forall in_unit_interval t) H).
Qed.

(** C9: the two 2-D tables have [COMP*COMP] entries, the two 1-D tables have
    [COMP] entries, and every entry of the four lies in [0.0, 1.0]. *)
Theorem table_entries_in_unit_interval :
  (Z.of_nat (length mBeckmannE) = COMP * COMP /\
   Z.of_nat (length mGGXE) = COMP * COMP /\
   Z.of_nat (length mBeckmannOneMinusEavg) = COMP /\
   Z.of_nat (length mGGXOneMinusEavg) = COMP)%Z /\
  Forall (fun x => 0 <= x /\ x <= 1) mBeckmannE /\
  Forall (fun x => 0 <= x /\ x <= 1) mGGXE /\
  Forall (fun x => 0 <= x /\ x <= 1) mBeckmannOneMinusEavg /\
  Forall (fun x => 0 <= x /\ x <= 1) mGGXOneMinusEavg.
Proof.
  split; [repeat split; reflexivity|].
  repeat split; apply forallb_in_unit_interval; vm_compute; reflexivity.
Qed.

(** ** [E] on in-range arguments *)

Section Albedo.

Variable type : MicrofacetDistribution.
Variable t : list float.
Hypothesis type_table : E_table type t.

Variables cosTheta roughness : float.
Hypothesis cosTheta_lo : 0 <= cosTheta.
Hypothesis cosTheta_hi : cosTheta <= 1.
Hypothesis roughness_lo : 0 <= roughness.
Hypothesis roughness_hi : roughness <= 1.

Let i : float := roughness * inject_Z 32.
Let l : Z := Qfloor i.
Let lo : Z := Qceiling (fadd (inject_Z (l * 33)) (cosTheta * inject_Z 32)).
Let hi : Z :=
  Qceiling (fadd (inject_Z ((l + 1) * 33)) (cosTheta * inject_Z 32)).

Lemma E_in_range :
  E type cosTheta roughness = lerp_reads t lo hi (i - inject_Z l).
Proof.
  rewrite (E_reads cosTheta roughness type_table).
  now rewrite (index_in_range cosTheta_lo cosTheta_hi
                              roughness_lo roughness_hi).
Qed.

Lemma low_index_range : (0 <= lo <= 1088)%Z.
Proof.
  pose proof (bucket_range roughness_lo roughness_hi) as Hl.
  fold i in Hl. fold l in Hl.
  assert (0 <= l <= 33)%Z as Hrow by lia.
  pose proof (@flat_range _ _ cosTheta_lo cosTheta_hi Hrow) as Hf.
  fold lo in Hf. lia.
Qed.

(** Below the last sample of the roughness axis both reads stay inside
    the table. *)
Lemma bucket_below_1 : roughness < 1 -> (l <= 31)%Z.
Proof.
  intros Hr. pose proof (Qfloor_le i) as Hle. fold l in Hle.
  assert (inject_Z l < inject_Z 32) as Hlt.
  { unfold i in Hle. change (inject_Z 32) with 32 in *. lra. }
  rewrite <- Zlt_Qlt in Hlt. lia.
Qed.

Lemma high_index_range_below_1 : roughness < 1 -> (0 <= hi <= 1088)%Z.
Proof.
  intros Hr. pose proof (bucket_below_1 Hr) as Hl31.
  pose proof (bucket_range roughness_lo roughness_hi) as Hl.
  fold i in Hl. fold l in Hl.
  assert (0 <= l + 1 <= 33)%Z as Hrow by lia.
  pose proof (@flat_range _ _ cosTheta_lo cosTheta_hi Hrow) as Hf.
  fold hi in Hf. lia.
Qed.

Lemma E_below_1 :
  roughness < 1 ->
  E type cosTheta roughness =
  Some (lerp (nth (Z.to_nat lo) t 0) (nth (Z.to_nat hi) t 0)
             (i - inject_Z l)).
Proof.
  intros Hr. rewrite E_in_range.
  pose proof low_index_range. pose proof (high_index_range_below_1 Hr).
  apply lerp_reads_defined; rewrite (E_table_length type_table); lia.
Qed.

(** On the last sample of the roughness axis the second read is past the
    end of the table. *)
Lemma bucket_at_1 : 1 <= roughness -> l = 32%Z.
Proof.
  intros Hr. unfold l. rewrite <- (Qfloor_Z 32). apply Qfloor_comp.
  unfold i. change (inject_Z 32) with 32. lra.
Qed.

Lemma high_index_at_1 : 1 <= roughness -> (1089 <= hi)%Z.
Proof.
  intros Hr. pose proof (bucket_at_1 Hr) as Hl.
  assert (0 <= l + 1 <= 33)%Z as Hrow by lia.
  pose proof (@flat_range _ _ cosTheta_lo cosTheta_hi Hrow) as Hf.
  fold hi in Hf. lia.
Qed.

Lemma E_at_1 : 1 <= roughness -> E type cosTheta roughness = None.
Proof.
  intros Hr. rewrite E_in_range. unfold lerp_reads.
  pose proof low_index_range. pose proof (high_index_at_1 Hr).
  rewrite read_defined by (rewrite (E_table_length type_table); lia).
  unfold bind at 1.
  rewrite read_past_end by (rewrite (E_table_length type_table); lia).
  reflexivity.
Qed.

End Albedo.

(** X10: for Beckmann and for GGX, [cosTheta] in [0, 1] and a roughness in
    [0, 1), both flattened indices are indices of the table of [COMP*COMP]
    entries, the weight lies in [0, 1), both reads are inside the table and
    the result of [E] is the interpolation of the two entries read. *)
Lemma E_reads_in_table_below_roughness_1
      (type : MicrofacetDistribution) (t : list float)
      (cosTheta roughness : float) :
  E_table type t ->
  0 <= cosTheta -> cosTheta <= 1 -> 0 <= roughness -> roughness < 1 ->
  exists ix a b e,
    index cosTheta roughness = Some ix /\
    (0 <= iLow ix < COMP * COMP)%Z /\ (0 <= iHigh ix < COMP * COMP)%Z /\
    read t (iLow ix) = Some a /\ read t (iHigh ix) = Some b /\
    0 <= w ix /\ w ix < 1 /\
    E type cosTheta roughness = Some e /\ e = lerp a b (w ix).
Proof.
  intros Ht Hc0 Hc1 Hr0 Hr.
  assert (roughness <= 1) as Hr1 by lra.
  pose proof (low_index_range Hc0 Hc1 Hr0 Hr1) as Hlo.
  pose proof (high_index_range_below_1 Hc0 Hc1 Hr0 Hr1 Hr) as Hhi.
  destruct (weight_range roughness) as [Hw0 Hw1].
  pose proof (E_table_length Ht) as Hlen.
  eexists; eexists; eexists; eexists.
  split; [exact (index_in_range Hc0 Hc1 Hr0 Hr1)|].
  cbn [iLow iHigh w]. change (COMP * COMP)%Z with 1089%Z.
  split; [lia|]. split; [lia|].
  split; [apply read_defined; rewrite Hlen; lia|].
  split; [apply read_defined; rewrite Hlen; lia|].
  split; [exact Hw0|]. split; [exact Hw1|].
  split; [exact (E_below_1 Ht Hc0 Hc1 Hr0 Hr1 Hr)|].
  reflexivity.
Qed.

(** C1, evaluated at [cosTheta = 0.0], [roughness = 1.0]: [index] gives the
    low index [1056] and the high index [1089], one past the last index
    [COMP*COMP - 1 = 1088] of the table, so the second read of [E] is outside
    the table and the call has no defined result, for GGX and for
    Beckmann. *)
Theorem E_roughness_1_reads_past_table :
  index 0 1 = Some (mkIndices 0 1056 1089) /\
  (wrap (wrap (COMP * COMP) - 1) = 1088)%Z /\
  length mGGXE = 1089%nat /\
  length mBeckmannE = 1089%nat /\
  read mGGXE 1089 = None /\
  read mBeckmannE 1089 = None /\
  E MICROFACET_DISTRIBUTION_GGX 0 1 = None /\
  E MICROFACET_DISTRIBUTION_BECKMANN 0 1 = None.
Proof. repeat split; vm_compute; reflexivity. Qed.

(** The same at every [cosTheta] of [0, 1]: at [roughness = 1.0] the high
    index is at least [COMP*COMP]. *)
Lemma E_roughness_1_undefined
      (type : MicrofacetDistribution) (t : list float) (cosTheta : float) :
  E_table type t -> 0 <= cosTheta -> cosTheta <= 1 ->
  (exists ix, index cosTheta 1 = Some ix /\ (COMP * COMP <= iHigh ix)%Z) /\
  E type cosTheta 1 = None.
Proof.
  intros Ht Hc0 Hc1.
  assert (0 <= 1) as H0 by discriminate.
  assert (1 <= 1) as H1 by discriminate.
  split.
  - eexists. split; [exact (index_in_range Hc0 Hc1 H0 H1)|].
    cbn [iHigh]. exact (high_index_at_1 Hc0 Hc1 H1 H1).
  - exact (E_at_1 Ht Hc0 Hc1 H0 H1 H1).
Qed.

(** With the bound [COMP-1] that [oneMinusAvg] puts on its high index, the
    second bucket stays on the roughness axis and the high flattened index
    inside the table, at [roughness = 1.0] too. *)
Lemma high_index_with_axis_bound (cosTheta roughness : float) :
  0 <= cosTheta -> cosTheta <= 1 -> 0 <= roughness -> roughness <= 1 ->
  (0 <= Qceiling
          (fadd
             (inject_Z
                (Z.min (Qfloor (roughness * inject_Z 32) + 1) (COMP - 1)
                 * COMP))
             (cosTheta * inject_Z 32)%Q)
   < COMP * COMP)%Z.
Proof.
  intros Hc0 Hc1 Hr0 Hr1.
  pose proof (bucket_range Hr0 Hr1) as Hl.
  change (COMP - 1)%Z with 32%Z. change (COMP * COMP)%Z with 1089%Z.
  change COMP with 33%Z.
  assert (0 <= Z.min (Qfloor (roughness * inject_Z 32) + 1) 32 <= 33)%Z
    as Hrow by lia.
  pose proof (@flat_range _ _ Hc0 Hc1 Hrow) as Hf.
  lia.
Qed.

(** X11: for Beckmann and for GGX, on the grid samples below the last row,
    that is with [cosTheta = j/(COMP-1)] and [roughness = k/(COMP-1)],
    [j <= COMP-1] and [k <= COMP-2], the low index is [k*COMP + j], the high
    index is the same column of the next row, the weight is [0] and [E]
    returns the entry at the low index. *)
Lemma E_on_grid_below_last_row
      (type : MicrofacetDistribution) (t : list float)
      (j k : Z) (cosTheta roughness : float) :
  E_table type t ->
  (0 <= j <= COMP - 1)%Z -> (0 <= k <= COMP - 2)%Z ->
  cosTheta == inject_Z j / inject_Z (COMP - 1) ->
  roughness == inject_Z k / inject_Z (COMP - 1) ->
  exists ix entry e,
    index cosTheta roughness = Some ix /\
    iLow ix = (k * COMP + j)%Z /\ iHigh ix = ((k + 1) * COMP + j)%Z /\
    w ix == 0 /\
    read t (k * COMP + j) = Some entry /\
    E type cosTheta roughness = Some e /\ e == entry.
Proof.
  change (COMP - 1)%Z with 32%Z. change (COMP - 2)%Z with 31%Z.
  change COMP with 33%Z.
  intros Ht Hj Hk Hc Hr.
  assert (0 <= k <= 32)%Z as Hk' by lia.
  destruct (sample_range Hj Hc) as [Hc0 Hc1].
  destruct (sample_range Hk' Hr) as [Hr0 Hr1].
  assert (roughness < 1) as Hr1'.
  { pose proof (sample_scaled Hr) as Hs.
    assert (inject_Z k <= inject_Z 31) as Hk31 by (rewrite <- Zle_Qle; lia).
    change (inject_Z 32) with 32 in Hs. change (inject_Z 31) with 31 in Hk31.
    lra. }
  pose proof (E_table_length Ht) as Hlen.
  eexists; eexists; eexists.
  split; [exact (index_in_range Hc0 Hc1 Hr0 Hr1)|].
  cbn [iLow iHigh w].
  rewrite (sample_bucket Hr), !(sample_flat Hj Hc) by lia.
  split; [reflexivity|]. split; [reflexivity|].
  split; [exact (sample_weight Hr)|].
  split; [apply read_defined; rewrite Hlen; lia|].
  split.
  - rewrite (E_below_1 Ht Hc0 Hc1 Hr0 Hr1 Hr1').
    rewrite (sample_bucket Hr), !(sample_flat Hj Hc) by lia. reflexivity.
  - apply lerp_weight_0. exact (sample_weight Hr).
Qed.

(** C4, evaluated at the grid point [j = k = COMP-1 = 32], that is
    [cosTheta = 1.0] and [roughness = 1.0]: the weight is [0] and the low
    index [1088] selects the last entry, but the high index is [1121], past
    the end of the table, so the second read of [E] is outside the table and
    the call has no defined result. *)
Theorem E_grid_last_row_reads_past_table :
  inject_Z 32 / inject_Z (COMP - 1) == 1 /\
  (exists weight,
     index (inject_Z 32 / inject_Z (COMP - 1))
           (inject_Z 32 / inject_Z (COMP - 1))
     = Some (mkIndices weight 1088 1121) /\ weight == 0) /\
  read mBeckmannE 1088 = Some 0.46446 /\
  read mBeckmannE 1121 = None /\
  E MICROFACET_DISTRIBUTION_BECKMANN
    (inject_Z 32 / inject_Z (COMP - 1)) (inject_Z 32 / inject_Z (COMP - 1))
  = None /\
  E MICROFACET_DISTRIBUTION_GGX
    (inject_Z 32 / inject_Z (COMP - 1)) (inject_Z 32 / inject_Z (COMP - 1))
  = None.
Proof.
  split; [reflexivity|].
  split; [eexists; split; [vm_compute; reflexivity | reflexivity]|].
  repeat split; vm_compute; reflexivity.
Qed.

(** ** [index] against the specification's index computation *)

Section Reference.

Variables cosTheta roughness : float.
Hypothesis roughness_lo : 0 <= roughness.
Hypothesis roughness_hi : roughness <= 1.

Let l : Z := Qfloor (roughness * inject_Z 32).
Let col : float := cosTheta * inject_Z 32.

Lemma index_reference_in_range :
  index_reference cosTheta roughness =
  mkIndices (roughness * inject_Z 32 - inject_Z l)
            (Qceiling (inject_Z (l * 33) + col))
            (Qceiling (inject_Z ((l + 1) * 33) + col)).
Proof.
  pose proof (bucket_range roughness_lo roughness_hi) as Hl.
  unfold index_reference.
  change (COMP - 1)%Z with 32%Z. change (COMP * COMP - 1)%Z with 1088%Z.
  change COMP with 33%Z. fold l. fold l in Hl.
  rewrite Z.min_l by lia.
  f_equal; apply Qceiling_comp; rewrite inject_Z_mult; reflexivity.
Qed.

Lemma index_reference_rounded_in_range :
  index_reference_rounded cosTheta roughness =
  mkIndices (roughness * inject_Z 32 - inject_Z l)
            (Qceiling (fadd (inject_Z (l * 33)) col))
            (Qceiling (fadd (inject_Z ((l + 1) * 33)) col)).
Proof.
  pose proof (bucket_range roughness_lo roughness_hi) as Hl.
  unfold index_reference_rounded, fadd.
  change (COMP - 1)%Z with 32%Z. change (COMP * COMP - 1)%Z with 1088%Z.
  change COMP with 33%Z. fold l. fold l in Hl.
  rewrite Z.min_l by lia.
  f_equal; f_equal; apply round_binary32_comp; rewrite inject_Z_mult;
    reflexivity.
Qed.

End Reference.

(** The sum of a row start of the table and an offset in [0, 32] has its
    rounded ceiling at the exact one or one below it. *)
Lemma rounded_flat_close (cosTheta : float) (row : Z) :
  0 <= cosTheta -> cosTheta <= 1 -> (0 <= row <= 33)%Z ->
  (Qceiling (inject_Z (row * 33) + cosTheta * inject_Z 32) - 1
   <= Qceiling (fadd (inject_Z (row * 33)) (cosTheta * inject_Z 32)%Q)
   <= Qceiling (inject_Z (row * 33) + cosTheta * inject_Z 32))%Z.
Proof.
  intros Hc0 Hc1 Hrow.
  assert (row * 33 <= Qceiling (inject_Z (row * 33) + cosTheta * inject_Z 32)
          <= row * 33 + 32)%Z as Hexact.
  { apply Qceiling_range; [|rewrite inject_Z_plus];
      change (inject_Z 32) with 32; lra. }
  apply ceil_fadd_exact_or_one_less; lia.
Qed.

(** C3 as stated fails where the sum is rounded down to an integer: at
    [cosTheta = 0x1.000002p-1] and [roughness = 0.5] the bucket is [16], the
    exact sums are [544 + 2^-19] and [577 + 2^-19], with ceilings [545] and
    [578], and their binary32 values are [544] and [577], which are the
    indices that [index] returns. *)
Lemma index_exact_reference_counterexample :
  (0 <= 8388609 # 16777216 /\ 8388609 # 16777216 <= 1 /\
   0 <= 1 # 2 /\ 1 # 2 <= 1) /\
  index (8388609 # 16777216) (1 # 2) = Some (mkIndices (0 # 2) 544 577) /\
  index_reference (8388609 # 16777216) (1 # 2) = mkIndices (0 # 2) 545 578 /\
  index (8388609 # 16777216) (1 # 2)
  <> Some (index_reference (8388609 # 16777216) (1 # 2)).
Proof.
  split; [repeat split; discriminate|].
  split; [vm_compute; reflexivity|].
  split; [vm_compute; reflexivity|].
  vm_compute. discriminate.
Qed.

(** C3, as amended: for [cosTheta] and [roughness] in [0, 1], [index]
    computes the bucket [rLow = floor(roughness*(COMP-1))], its weight, the
    second bucket [min(rLow+1, COMP*COMP-1)] and, for the flattened indices,
    the ceilings of the sums [rLow*COMP + cosTheta*(COMP-1)] and
    [rHigh*COMP + cosTheta*(COMP-1)] rounded to binary32; each index is the
    ceiling of the exact sum or one less.  For a roughness below [1] both
    entries at these indices exist, and [E], for either supported variant,
    is their linear interpolation with that weight. *)
Theorem index_matches_rounded_reference (cosTheta roughness : float) :
  0 <= cosTheta -> cosTheta <= 1 -> 0 <= roughness -> roughness <= 1 ->
  index cosTheta roughness
  = Some (index_reference_rounded cosTheta roughness) /\
  w (index_reference_rounded cosTheta roughness)
  = w (index_reference cosTheta roughness) /\
  (iLow (index_reference cosTheta roughness) - 1
   <= iLow (index_reference_rounded cosTheta roughness)
   <= iLow (index_reference cosTheta roughness))%Z /\
  (iHigh (index_reference cosTheta roughness) - 1
   <= iHigh (index_reference_rounded cosTheta roughness)
   <= iHigh (index_reference cosTheta roughness))%Z /\
  (roughness < 1 ->
   forall type t, E_table type t ->
   exists a b,
     read t (iLow (index_reference_rounded cosTheta roughness)) = Some a /\
     read t (iHigh (index_reference_rounded cosTheta roughness)) = Some b /\
     E type cosTheta roughness
     = Some (lerp a b (w (index_reference_rounded cosTheta roughness)))).
Proof.
  intros Hc0 Hc1 Hr0 Hr1.
  pose proof (bucket_range Hr0 Hr1) as Hl.
  rewrite (index_reference_rounded_in_range cosTheta Hr0 Hr1).
  rewrite (index_reference_in_range cosTheta Hr0 Hr1).
  cbn [w iLow iHigh].
  split; [exact (index_in_range Hc0 Hc1 Hr0 Hr1)|].
  split; [reflexivity|].
  split; [apply (rounded_flat_close Hc0 Hc1); lia|].
  split; [apply (rounded_flat_close Hc0 Hc1); lia|].
  intros Hr type t Ht.
  pose proof (low_index_range Hc0 Hc1 Hr0 Hr1) as Hlo.
  pose proof (high_index_range_below_1 Hc0 Hc1 Hr0 Hr1 Hr) as Hhi.
  pose proof (E_table_length Ht) as Hlen.
  eexists; eexists.
  split; [apply read_defined; rewrite Hlen; lia|].
  split; [apply read_defined; rewrite Hlen; lia|].
  exact (E_below_1 Ht Hc0 Hc1 Hr0 Hr1 Hr).
Qed.

Lemma index_matches_rounded_reference_witness :
  (0 <= 8388609 # 16777216 /\ 8388609 # 16777216 <= 1 /\
   0 <= 1 # 2 /\ 1 # 2 <= 1) /\
  index (8388609 # 16777216) (1 # 2)
  = Some (index_reference_rounded (8388609 # 16777216) (1 # 2)) /\
  w (index_reference_rounded (8388609 # 16777216) (1 # 2))
  = w (index_reference (8388609 # 16777216) (1 # 2)) /\
  (iLow (index_reference (8388609 # 16777216) (1 # 2)) - 1
   <= iLow (index_reference_rounded (8388609 # 16777216) (1 # 2))
   <= iLow (index_reference (8388609 # 16777216) (1 # 2)))%Z /\
  (iHigh (index_reference (8388609 # 16777216) (1 # 2)) - 1
   <= iHigh (index_reference_rounded (8388609 # 16777216) (1 # 2))
   <= iHigh (index_reference (8388609 # 16777216) (1 # 2)))%Z /\
  (1 # 2 < 1 ->
   forall type t, E_table type t ->
   exists a b,
     read t (iLow (index_reference_rounded (8388609 # 16777216) (1 # 2)))
     = Some a /\
     read t (iHigh (index_reference_rounded (8388609 # 16777216) (1 # 2)))
     = Some b /\
     E type (8388609 # 16777216) (1 # 2)
     = Some (lerp a b
               (w (index_reference_rounded (8388609 # 16777216) (1 # 2))))).
Proof.
  split.
  - repeat split; discriminate.
  - apply (@index_matches_rounded_reference (8388609 # 16777216) (1 # 2));
      discriminate.
Defined.

(** ** Monotonicity of a 1-D interpolation *)

Section Monotone.

Variable t : list float.

(** The first bucket from which the entries never decrease. *)
Variable from : nat.
Hypothesis t_nondecreasing : nondecreasing_from t from (32 - from) = true.

Lemma entries_adjacent (n : nat) :
  (from <= n < 32)%nat -> nth n t 0 <= nth (S n) t 0.
Proof.
  intros Hn. apply Qle_bool_iff.
  apply (proj1 (forallb_forall _ _) t_nondecreasing n).
  apply in_seq. lia.
Qed.

Lemma entries_nondecreasing (a b : nat) :
  (from <= a)%nat -> (a <= b)%nat -> (b <= 32)%nat ->
  nth a t 0 <= nth b t 0.
Proof.
  intros Ha Hab. induction Hab as [|b Hab IH]; intros Hb.
  - apply Qle_refl.
  - apply Qle_trans with (nth b t 0).
    + apply IH. lia.
    + apply entries_adjacent. lia.
Qed.

Let g (z : Z) : float := nth (Z.to_nat z) t 0.

Lemma g_nondecreasing (a b : Z) :
  (Z.of_nat from <= a)%Z -> (a <= b)%Z -> (b <= 32)%Z -> g a <= g b.
Proof. intros Ha Hab Hb. apply entries_nondecreasing; lia. Qed.

(** The value that [oneMinusAvg] returns on in-range roughness. *)
Let interp (r : float) : float :=
  lerp (g (Qfloor (r * inject_Z 32)))
       (g (Z.min (Qfloor (r * inject_Z 32) + 1) 32))
       (r * inject_Z 32 - inject_Z (Qfloor (r * inject_Z 32))).

Variables r1 r2 : float.
Hypothesis r1_from : inject_Z (Z.of_nat from) <= r1 * inject_Z 32.
Hypothesis r1_r2 : r1 <= r2.
Hypothesis r2_hi : r2 <= 1.

Lemma interp_nondecreasing : interp r1 <= interp r2.
Proof.
  assert (0 <= r1) as Hr1.
  { assert (inject_Z 0 <= inject_Z (Z.of_nat from)) as H
      by (rewrite <- Zle_Qle; lia).
    change (inject_Z 0) with 0 in H. change (inject_Z 32) with 32 in *.
    lra. }
  assert (r1 <= 1) as Hr1' by lra.
  assert (0 <= r2) as Hr2 by lra.
  pose proof (bucket_range Hr1 Hr1') as Hl1.
  pose proof (bucket_range Hr2 r2_hi) as Hl2.
  destruct (weight_range r1) as [Hw1 Hw1'].
  destruct (weight_range r2) as [Hw2 Hw2'].
  assert (Z.of_nat from <= Qfloor (r1 * inject_Z 32))%Z as Hfrom.
  { rewrite <- (Qfloor_Z (Z.of_nat from)). now apply Qfloor_resp_le. }
  assert (Qfloor (r1 * inject_Z 32) <= Qfloor (r2 * inject_Z 32))%Z as Hl.
  { apply Qfloor_resp_le. change (inject_Z 32) with 32. lra. }
  unfold interp.
  set (l1 := Qfloor (r1 * inject_Z 32)) in *.
  set (l2 := Qfloor (r2 * inject_Z 32)) in *.
  destruct (Z.eq_dec l1 l2) as [Heq | Hne].
  - rewrite <- Heq in *. apply lerp_weight_le.
    + apply g_nondecreasing; lia.
    + change (inject_Z 32) with 32. lra.
  - apply Qle_trans with (g (Z.min (l1 + 1) 32)).
    { apply lerp_between; [lra | lra |]. apply g_nondecreasing; lia. }
    apply Qle_trans with (g l2).
    { apply g_nondecreasing; lia. }
    apply lerp_between; [lra | lra |]. apply g_nondecreasing; lia.
Qed.

End Monotone.

Lemma oneMinusAvg_nondecreasing_from
      (type : MicrofacetDistribution) (t : list float) (from : nat)
      (r1 r2 : float) :
  oneMinusAvg_table type t ->
  nondecreasing_from t from (32 - from) = true ->
  inject_Z (Z.of_nat from) <= r1 * inject_Z 32 -> r1 <= r2 -> r2 <= 1 ->
  exists e1 e2,
    oneMinusAvg type r1 = Some e1 /\ oneMinusAvg type r2 = Some e2 /\
    e1 <= e2.
Proof.
  intros Ht Hsorted Hfrom H12 H2.
  assert (0 <= r1) as Hr1.
  { assert (inject_Z 0 <= inject_Z (Z.of_nat from)) as H
      by (rewrite <- Zle_Qle; lia).
    change (inject_Z 0) with 0 in H. change (inject_Z 32) with 32 in *.
    lra. }
  assert (r1 <= 1) as Hr1' by lra.
  assert (0 <= r2) as Hr2 by lra.
  eexists; eexists.
  split; [exact (oneMinusAvg_in_range Ht Hr1 Hr1')|].
  split; [exact (oneMinusAvg_in_range Ht Hr2 H2)|].
  exact (interp_nondecreasing t from Hsorted Hfrom H12 H2).
Qed.

(** C2, as amended: on the supplied tables [oneMinusAvg] never decreases as
    the roughness grows through [0, 1] for GGX, and through [1/32, 1] for
    Beckmann; and [E] does decrease with the roughness for both variants:
    at [cosTheta = 1.0] it is lower at roughness [31/32] than at roughness
    [0]. *)
Theorem oneMinusAvg_nondecreasing_in_roughness :
  (forall r1 r2 : float, 0 <= r1 -> r1 <= r2 -> r2 <= 1 ->
     exists e1 e2,
       oneMinusAvg MICROFACET_DISTRIBUTION_GGX r1 = Some e1 /\
       oneMinusAvg MICROFACET_DISTRIBUTION_GGX r2 = Some e2 /\
       e1 <= e2) /\
  (forall r1 r2 : float, 1 # 32 <= r1 -> r1 <= r2 -> r2 <= 1 ->
     exists e1 e2,
       oneMinusAvg MICROFACET_DISTRIBUTION_BECKMANN r1 = Some e1 /\
       oneMinusAvg MICROFACET_DISTRIBUTION_BECKMANN r2 = Some e2 /\
       e1 <= e2) /\
  (forall type t, E_table type t ->
     exists e1 e2,
       E type 1 0 = Some e1 /\ E type 1 (31 # 32) = Some e2 /\ e2 < e1).
Proof.
  split; [|split].
  - intros r1 r2 H1 H12 H2.
    apply (@oneMinusAvg_nondecreasing_from _ mGGXOneMinusEavg 0%nat);
      [constructor | vm_compute; reflexivity | | exact H12 | exact H2].
    change (inject_Z (Z.of_nat 0)) with 0. change (inject_Z 32) with 32. lra.
  - intros r1 r2 H1 H12 H2.
    apply (@oneMinusAvg_nondecreasing_from _ mBeckmannOneMinusEavg 1%nat);
      [constructor | vm_compute; reflexivity | | exact H12 | exact H2].
    change (inject_Z (Z.of_nat 1)) with 1. change (inject_Z 32) with 32. lra.
  - intros type t [];
      (eexists; eexists;
       split; [vm_compute; reflexivity|];
       split; [vm_compute; reflexivity|]; reflexivity).
Qed.

Lemma oneMinusAvg_nondecreasing_in_roughness_witness :
  (0 <= 1 # 4 /\ 1 # 32 <= 1 # 4 /\ 1 # 4 <= 1 # 2 /\ 1 # 2 <= 1) /\
  (exists e1 e2,
     oneMinusAvg MICROFACET_DISTRIBUTION_GGX (1 # 4) = Some e1 /\
     oneMinusAvg MICROFACET_DISTRIBUTION_GGX (1 # 2) = Some e2 /\
     e1 <= e2) /\
  (exists e1 e2,
     oneMinusAvg MICROFACET_DISTRIBUTION_BECKMANN (1 # 4) = Some e1 /\
     oneMinusAvg MICROFACET_DISTRIBUTION_BECKMANN (1 # 2) = Some e2 /\
     e1 <= e2).
Proof.
  split; [repeat split; discriminate|].
  split.
  - apply (proj1 oneMinusAvg_nondecreasing_in_roughness (1 # 4) (1 # 2));
      discriminate.
  - apply (proj1 (proj2 oneMinusAvg_nondecreasing_in_roughness)
                 (1 # 4) (1 # 2));
      discriminate.
Defined.

(** C2 as stated fails on the supplied tables.  For [E], at
    [cosTheta = 1.0]: Beckmann gives [1.00000] at roughness [0] and [0.90187]
    at roughness [3/4]; GGX gives [1.00000] and [0.63288].  For
    [oneMinusAvg], Beckmann gives [0.00035] at roughness [0] and [0.00000] at
    roughness [1/32]. *)
Lemma nondecreasing_in_roughness_counterexample :
  (0 <= 0 /\ 0 <= 3 # 4 /\ 3 # 4 <= 1 /\ 0 <= 1 # 32 /\ 1 # 32 <= 1) /\
  (exists e1 e2,
     E MICROFACET_DISTRIBUTION_BECKMANN 1 0 = Some e1 /\
     E MICROFACET_DISTRIBUTION_BECKMANN 1 (3 # 4) = Some e2 /\
     e1 == 1.00000 /\ e2 == 0.90187 /\ ~ e1 <= e2) /\
  (exists e1 e2,
     E MICROFACET_DISTRIBUTION_GGX 1 0 = Some e1 /\
     E MICROFACET_DISTRIBUTION_GGX 1 (3 # 4) = Some e2 /\
     e1 == 1.00000 /\ e2 == 0.63288 /\ ~ e1 <= e2) /\
  (exists e1 e2,
     oneMinusAvg MICROFACET_DISTRIBUTION_BECKMANN 0 = Some e1 /\
     oneMinusAvg MICROFACET_DISTRIBUTION_BECKMANN (1 # 32) = Some e2 /\
     e1 == 0.00035 /\ e2 == 0.00000 /\ ~ e1 <= e2).
Proof.
  split; [repeat split; discriminate|].
  repeat split;
    (eexists; eexists;
     split; [vm_compute; reflexivity|];
     split; [vm_compute; reflexivity|];
     split; [reflexivity|];
     split; [reflexivity|];
     intros H; apply H; reflexivity).
Qed.

(** ** Floors, ceilings and conversions, in both directions *)

Lemma Qfloor_ge (x : float) (z : Z) : inject_Z z <= x <-> (z <= Qfloor x)%Z.
Proof.
  split; intros H.
  - rewrite <- (Qfloor_Z z). now apply Qfloor_resp_le.
  - apply Qle_trans with (inject_Z (Qfloor x)); [|apply Qfloor_le].
    now rewrite <- Zle_Qle.
Qed.

Lemma Qfloor_lt (x : float) (z : Z) : x < inject_Z z <-> (Qfloor x < z)%Z.
Proof.
  split; intros H.
  - rewrite Zlt_Qlt. apply Qle_lt_trans with x; [apply Qfloor_le | exact H].
  - apply Qlt_le_trans with (inject_Z (Qfloor x + 1)); [apply Qlt_floor|].
    rewrite <- Zle_Qle. lia.
Qed.

Lemma Qceiling_le (x : float) (z : Z) : x <= inject_Z z <-> (Qceiling x <= z)%Z.
Proof.
  split; intros H.
  - rewrite <- (Qceiling_Z z). now apply Qceiling_resp_le.
  - apply Qle_trans with (inject_Z (Qceiling x)); [apply Qle_ceiling|].
    now rewrite <- Zle_Qle.
Qed.

Lemma Qceiling_gt (x : float) (z : Z) : inject_Z z < x <-> (z < Qceiling x)%Z.
Proof.
  split; intros H.
  - rewrite Zlt_Qlt. apply Qlt_le_trans with x; [exact H | apply Qle_ceiling].
  - apply Qle_lt_trans with (inject_Z (Qceiling x - 1)); [|apply Qceiling_lt].
    rewrite <- Zle_Qle. lia.
Qed.

Lemma Qceiling_plus_Z (n : Z) (x : float) :
  Qceiling (inject_Z n + x) = (n + Qceiling x)%Z.
Proof.
  apply Z.le_antisymm.
  - apply Qceiling_le. rewrite inject_Z_plus.
    pose proof (Qle_ceiling x). lra.
  - assert (Qceiling x <= Qceiling (inject_Z n + x) - n)%Z; [|lia].
    apply Qceiling_le. unfold Z.sub. rewrite inject_Z_plus, inject_Z_opp.
    pose proof (Qle_ceiling (inject_Z n + x)). lra.
Qed.

Lemma static_cast_size_t_inject_Z_Some (z k : Z) :
  static_cast_size_t (inject_Z z) = Some k ->
  k = z /\ (0 <= z < size_t_modulus)%Z.
Proof.
  intros H. pose proof (static_cast_size_t_range _ H) as Hk.
  unfold static_cast_size_t in H. rewrite truncate_inject_Z in H.
  destruct ((0 <=? z) && (z <? size_t_modulus))%Z; [|discriminate].
  injection H as <-. now split.
Qed.

Lemma static_cast_size_t_inject_Z_None (z : Z) :
  (z < 0 \/ size_t_modulus <= z)%Z ->
  static_cast_size_t (inject_Z z) = None.
Proof.
  intros H. destruct (static_cast_size_t (inject_Z z)) as [k|] eqn:Hk;
    [|reflexivity].
  apply static_cast_size_t_inject_Z_Some in Hk. lia.
Qed.

(** ** [rIndex] on any roughness *)

Lemma rIndex_unfold (roughness : float) :
  rIndex roughness =
  (l <- static_cast_size_t (inject_Z (Qfloor (roughness * inject_Z 32))) ;;
   Some (l, roughness * inject_Z 32 -
            inject_Z (Qfloor (roughness * inject_Z 32)))).
Proof. reflexivity. Qed.

Lemma rIndex_Some (roughness : float) (l : Z) (weight : float) :
  rIndex roughness = Some (l, weight) ->
  l = Qfloor (roughness * inject_Z 32) /\
  weight = roughness * inject_Z 32 - inject_Z l /\
  (0 <= l < size_t_modulus)%Z.
Proof.
  rewrite rIndex_unfold. intros H.
  destruct (static_cast_size_t (inject_Z (Qfloor (roughness * inject_Z 32))))
    as [k|] eqn:Hk; [|discriminate].
  apply static_cast_size_t_inject_Z_Some in Hk as [-> Hrange].
  unfold bind in H. injection H as <- <-. now repeat split.
Qed.

Lemma scaled_nonneg (roughness : float) :
  0 <= roughness <-> inject_Z 0 <= roughness * inject_Z 32.
Proof.
  change (inject_Z 0) with 0. change (inject_Z 32) with 32. split; lra.
Qed.

(** X1: whenever [rIndex] returns, its bucket is a [size_t], it is the floor
    of [roughness * (COMP-1)], the weight lies in [0, 1), and bucket plus
    weight give [roughness * (COMP-1)] back. *)
Theorem rIndex_recomposes (roughness : float) (l : Z) (weight : float) :
  rIndex roughness = Some (l, weight) ->
  (0 <= l < size_t_modulus)%Z /\
  l = Qfloor (roughness * inject_Z (COMP - 1)) /\
  0 <= weight /\ weight < 1 /\
  inject_Z l + weight == roughness * inject_Z (COMP - 1).
Proof.
  change (COMP - 1)%Z with 32%Z.
  intros H. apply rIndex_Some in H as (Hl & Hw & Hrange).
  destruct (weight_range roughness) as [Hw0 Hw1].
  rewrite <- Hl in Hw0, Hw1. rewrite <- Hw in Hw0, Hw1.
  repeat split; try assumption; try lia.
  rewrite Hw. ring.
Qed.

Lemma rIndex_recomposes_witness :
  rIndex (5 # 7) = Some (22%Z, 6 # 7) /\
  (0 <= 22 < size_t_modulus)%Z /\
  22%Z = Qfloor ((5 # 7) * inject_Z (COMP - 1)) /\
  0 <= 6 # 7 /\ 6 # 7 < 1 /\
  inject_Z 22 + (6 # 7) == (5 # 7) * inject_Z (COMP - 1).
Proof.
  split; [reflexivity|].
  apply (@rIndex_recomposes (5 # 7) 22 (6 # 7)). reflexivity.
Defined.

Lemma rIndex_domain (roughness : float) :
  rIndex roughness <> None <->
  0 <= roughness /\
  roughness * inject_Z (COMP - 1) < inject_Z size_t_modulus.
Proof.
  change (COMP - 1)%Z with 32%Z. rewrite scaled_nonneg, Qfloor_ge, Qfloor_lt.
  rewrite rIndex_unfold. split.
  - intros H.
    destruct (static_cast_size_t
                (inject_Z (Qfloor (roughness * inject_Z 32))))
      as [k|] eqn:Hk; [|now elim H].
    apply static_cast_size_t_inject_Z_Some in Hk. lia.
  - intros H. rewrite static_cast_size_t_inject_Z by lia. discriminate.
Qed.

(** X2: [rIndex] has a defined result for a roughness that is not negative
    with [roughness * (COMP-1)] below [2^64], and for no other: on a negative
    roughness, [-1/64] say, the floor is negative and its conversion to
    [size_t] is undefined. *)
Theorem rIndex_defined_iff (roughness : float) :
  (rIndex roughness <> None <->
   0 <= roughness /\
   roughness * inject_Z (COMP - 1) < inject_Z size_t_modulus) /\
  (roughness < 0 -> rIndex roughness = None) /\
  (inject_Z size_t_modulus <= roughness * inject_Z (COMP - 1) ->
   rIndex roughness = None).
Proof.
  pose proof (rIndex_domain roughness) as Hdom.
  split; [exact Hdom|].
  split; intros H; destruct (rIndex roughness) as [lw|] eqn:Hr;
    try reflexivity;
    (assert (Some lw <> None) as Hsome by discriminate;
     apply Hdom in Hsome; lra).
Qed.

Lemma rIndex_defined_iff_witness :
  (- 1 # 64 < 0) /\ rIndex (- 1 # 64) = None.
Proof.
  split; [reflexivity|].
  apply (proj1 (proj2 (rIndex_defined_iff (- 1 # 64)))). reflexivity.
Defined.

(** ** [oneMinusAvg] on any roughness *)

Lemma read_Some_range (t : list float) (i : Z) (a : float) :
  read t i = Some a -> (0 <= i < Z.of_nat (length t))%Z /\ In a t.
Proof.
  unfold read. destruct (i <? 0)%Z eqn:Hi; [discriminate|].
  intros H. apply Z.ltb_ge in Hi. split.
  - assert (Z.to_nat i < length t)%nat; [|lia].
    apply nth_error_Some. congruence.
  - eapply nth_error_In. exact H.
Qed.

Lemma lerp_reads_Some (t : list float) (lo hi : Z) (weight e : float) :
  lerp_reads t lo hi weight = Some e ->
  exists a b,
    read t lo = Some a /\ read t hi = Some b /\ e = lerp a b weight.
Proof.
  unfold lerp_reads. intros H.
  destruct (read t lo) as [a|]; [|discriminate].
  destruct (read t hi) as [b|]; [|discriminate].
  unfold bind in H. injection H as <-. now exists a, b.
Qed.

Lemma lerp_in_unit_interval (a b t : float) :
  0 <= t -> t <= 1 -> 0 <= a /\ a <= 1 -> 0 <= b /\ b <= 1 ->
  0 <= lerp a b t /\ lerp a b t <= 1.
Proof.
  intros Ht0 Ht1 [Ha0 Ha1] [Hb0 Hb1].
  destruct (lerp_between_minmax a b Ht0 Ht1) as [Hmin Hmax].
  split.
  - apply Qle_trans with (Qmin a b); [|exact Hmin].
    now apply Q.min_glb.
  - apply Qle_trans with (Qmax a b); [exact Hmax|].
    now apply Q.max_lub.
Qed.

Lemma unit_interval_entry (t : list float) (i : Z) (a : float) :
  forallb in_unit_interval t = true -> read t i = Some a ->
  0 <= a /\ a <= 1.
Proof.
  intros Ht Ha. apply read_Some_range in Ha as [_ Hin].
  apply forallb_in_unit_interval in Ht.
  exact (proj1 (Forall_forall _ t) Ht a Hin).
Qed.

Lemma oneMinusAvg_table_unit (type : MicrofacetDistribution) (t : list float) :
  oneMinusAvg_table type t -> forallb in_unit_interval t = true.
Proof. intros []; vm_compute; reflexivity. Qed.

Lemma E_table_unit (type : MicrofacetDistribution) (t : list float) :
  E_table type t -> forallb in_unit_interval t = true.
Proof. intros []; vm_compute; reflexivity. Qed.

Section OneMinusAvgWide.

Variable type : MicrofacetDistribution.
Variable t : list float.
Hypothesis type_table : oneMinusAvg_table type t.

Variable roughness : float.
Hypothesis roughness_lo : 0 <= roughness.
Hypothesis roughness_hi : roughness < 33 # 32.

Let i : float := roughness * inject_Z 32.
Let l : Z := Qfloor i.

Lemma bucket_range_wide : (0 <= l <= 32)%Z.
Proof.
  split.
  - apply Qfloor_ge. exact (proj1 (scaled_nonneg roughness) roughness_lo).
  - assert (l < 33)%Z; [|lia]. apply Qfloor_lt.
    unfold i. change (inject_Z 32) with 32. change (inject_Z 33) with 33.
    lra.
Qed.

Lemma oneMinusAvg_wide :
  oneMinusAvg type roughness =
  Some (lerp (nth (Z.to_nat l) t 0)
             (nth (Z.to_nat (Z.min (l + 1) 32)) t 0)
             (i - inject_Z l)).
Proof.
  pose proof bucket_range_wide as Hl.
  rewrite (oneMinusAvg_reads roughness type_table), rIndex_unfold.
  fold i. fold l.
  rewrite static_cast_size_t_inject_Z by (unfold size_t_modulus; lia).
  unfold bind. cbn [fst snd].
  change (wrap (COMP - 1)) with 32%Z. unfold min.
  rewrite wrap_small by (unfold size_t_modulus; lia).
  apply lerp_reads_defined;
    rewrite (oneMinusAvg_table_length type_table); lia.
Qed.

End OneMinusAvgWide.

(** X3: for Beckmann and for GGX, [oneMinusAvg] has a defined result exactly
    for [0 <= roughness < 33/32]: below [0] the conversion to [size_t] is
    undefined, and from [33/32] on the low index is [COMP] or more, which
    nothing bounds, so the first read is past the table. *)
Theorem oneMinusAvg_defined_iff
        (type : MicrofacetDistribution) (t : list float) (roughness : float) :
  oneMinusAvg_table type t ->
  (oneMinusAvg type roughness <> None <->
   0 <= roughness /\ roughness < 33 # 32).
Proof.
  intros Ht. split.
  - rewrite (oneMinusAvg_reads roughness Ht). intros H.
    destruct (rIndex roughness) as [[l weight]|] eqn:Hr; [|now elim H].
    unfold bind in H. cbn [fst snd] in H.
    apply rIndex_Some in Hr as (Hl & _ & Hrange).
    destruct (lerp_reads t l (min (wrap (l + 1)) (wrap (COMP - 1))) weight)
      as [e|] eqn:He; [|now elim H].
    apply lerp_reads_Some in He as (a & b & Ha & _ & _).
    apply read_Some_range in Ha as [Hla _].
    rewrite (oneMinusAvg_table_length Ht) in Hla.
    split.
    + apply scaled_nonneg, Qfloor_ge. lia.
    + assert (roughness * inject_Z 32 < inject_Z 33) as Hlt
        by (apply Qfloor_lt; lia).
      change (inject_Z 32) with 32 in Hlt. change (inject_Z 33) with 33 in Hlt.
      lra.
  - intros [H0 H1]. rewrite (oneMinusAvg_wide Ht H0 H1). discriminate.
Qed.

Lemma oneMinusAvg_defined_iff_witness :
  oneMinusAvg_table MICROFACET_DISTRIBUTION_GGX mGGXOneMinusEavg /\
  (oneMinusAvg MICROFACET_DISTRIBUTION_GGX (33 # 32) <> None <->
   0 <= 33 # 32 /\ 33 # 32 < 33 # 32).
Proof.
  split; [constructor|].
  apply (@oneMinusAvg_defined_iff MICROFACET_DISTRIBUTION_GGX
           mGGXOneMinusEavg (33 # 32)).
  constructor.
Defined.

(** X4: for Beckmann and for GGX, a roughness in [1, 33/32) is not refused:
    the low index is [COMP-1], the high index is cut back to [COMP-1], both
    reads are the last entry of the table, and the result is the
    interpolation of that entry with itself. *)
Theorem oneMinusAvg_past_1_last_entry
        (type : MicrofacetDistribution) (t : list float) (roughness : float) :
  oneMinusAvg_table type t ->
  1 <= roughness -> roughness < 33 # 32 ->
  exists weight last e,
    rIndex roughness = Some ((COMP - 1)%Z, weight) /\
    min (wrap (COMP - 1 + 1)) (wrap (COMP - 1)) = (COMP - 1)%Z /\
    read t (COMP - 1) = Some last /\
    oneMinusAvg type roughness = Some e /\
    e = lerp last last weight.
Proof.
  change (COMP - 1)%Z with 32%Z. intros Ht H1 H2.
  assert (0 <= roughness) as H0 by lra.
  pose proof (bucket_range_wide H0 H2) as Hl.
  assert (Qfloor (roughness * inject_Z 32) = 32%Z) as Hl32.
  { assert (32 <= Qfloor (roughness * inject_Z 32))%Z; [|lia].
    apply Qfloor_ge. change (inject_Z 32) with 32. lra. }
  exists (roughness * inject_Z 32 - inject_Z 32), (nth 32 t 0).
  eexists.
  split.
  { rewrite rIndex_unfold, Hl32.
    rewrite static_cast_size_t_inject_Z by (unfold size_t_modulus; lia).
    reflexivity. }
  split; [reflexivity|].
  split.
  { apply (read_defined t (i := 32)).
    rewrite (oneMinusAvg_table_length Ht). lia. }
  split; [rewrite (oneMinusAvg_wide Ht H0 H2), Hl32; reflexivity|].
  reflexivity.
Qed.

Lemma oneMinusAvg_past_1_last_entry_witness :
  (oneMinusAvg_table MICROFACET_DISTRIBUTION_BECKMANN mBeckmannOneMinusEavg /\
   1 <= 65 # 64 /\ 65 # 64 < 33 # 32) /\
  exists weight last e,
    rIndex (65 # 64) = Some ((COMP - 1)%Z, weight) /\
    min (wrap (COMP - 1 + 1)) (wrap (COMP - 1)) = (COMP - 1)%Z /\
    read mBeckmannOneMinusEavg (COMP - 1) = Some last /\
    oneMinusAvg MICROFACET_DISTRIBUTION_BECKMANN (65 # 64) = Some e /\
    e = lerp last last weight.
Proof.
  split.
  - split; [constructor|]. split; [discriminate | reflexivity].
  - apply (@oneMinusAvg_past_1_last_entry MICROFACET_DISTRIBUTION_BECKMANN
             mBeckmannOneMinusEavg (65 # 64)).
    + constructor.
    + discriminate.
    + reflexivity.
Defined.

(** X5: for Beckmann and for GGX and a roughness in [0, 1], [oneMinusAvg]
    interpolates the entries at the bucket and at the next index, cut at
    [COMP-1], with a weight in [0, 1), and its result lies between the
    smaller and the larger of the two entries. *)
Theorem oneMinusAvg_convex
        (type : MicrofacetDistribution) (t : list float) (roughness : float) :
  oneMinusAvg_table type t ->
  0 <= roughness -> roughness <= 1 ->
  exists lo weight a b e,
    rIndex roughness = Some (lo, weight) /\
    0 <= weight /\ weight < 1 /\
    read t lo = Some a /\ read t (Z.min (lo + 1) (COMP - 1)) = Some b /\
    oneMinusAvg type roughness = Some e /\ e = lerp a b weight /\
    Qmin a b <= e /\ e <= Qmax a b.
Proof.
  change (COMP - 1)%Z with 32%Z. intros Ht H0 H1.
  pose proof (bucket_range H0 H1) as Hl.
  destruct (weight_range roughness) as [Hw0 Hw1].
  pose proof (oneMinusAvg_table_length Ht) as Hlen.
  eexists; eexists; eexists; eexists; eexists.
  split; [exact (rIndex_in_range H0 H1)|].
  split; [exact Hw0|]. split; [exact Hw1|].
  split; [apply read_defined; rewrite Hlen; lia|].
  split; [apply read_defined; rewrite Hlen; lia|].
  split; [exact (oneMinusAvg_in_range Ht H0 H1)|].
  split; [reflexivity|].
  apply lerp_between_minmax; lra.
Qed.

Lemma oneMinusAvg_convex_witness :
  (oneMinusAvg_table MICROFACET_DISTRIBUTION_GGX mGGXOneMinusEavg /\
   0 <= 3 # 7 /\ 3 # 7 <= 1) /\
  exists lo weight a b e,
    rIndex (3 # 7) = Some (lo, weight) /\
    0 <= weight /\ weight < 1 /\
    read mGGXOneMinusEavg lo = Some a /\
    read mGGXOneMinusEavg (Z.min (lo + 1) (COMP - 1)) = Some b /\
    oneMinusAvg MICROFACET_DISTRIBUTION_GGX (3 # 7) = Some e /\
    e = lerp a b weight /\
    Qmin a b <= e /\ e <= Qmax a b.
Proof.
  split.
  - split; [constructor|]. split; discriminate.
  - apply (@oneMinusAvg_convex MICROFACET_DISTRIBUTION_GGX
             mGGXOneMinusEavg (3 # 7)).
    + constructor.
    + discriminate.
    + discriminate.
Defined.

(** X6: whatever the variant and the roughness, a result that [oneMinusAvg]
    returns lies in [0.0, 1.0]. *)
Theorem oneMinusAvg_result_in_unit_interval
        (type : MicrofacetDistribution) (roughness e : float) :
  oneMinusAvg type roughness = Some e -> 0 <= e /\ e <= 1.
Proof.
  assert (forall t, oneMinusAvg_table type t ->
                    oneMinusAvg type roughness = Some e -> 0 <= e /\ e <= 1)
    as Hsupported.
  { intros t Ht. rewrite (oneMinusAvg_reads roughness Ht).
    destruct (rIndex roughness) as [[l weight]|] eqn:Hr; [|discriminate].
    unfold bind. cbn [fst snd]. intros He.
    apply lerp_reads_Some in He as (a & b & Ha & Hb & ->).
    apply rIndex_Some in Hr as (Hl & Hw & _).
    destruct (weight_range roughness) as [Hw0 Hw1].
    rewrite <- Hl, <- Hw in Hw0, Hw1.
    pose proof (oneMinusAvg_table_unit Ht) as Hunit.
    apply lerp_in_unit_interval; [lra | lra | |].
    - exact (@unit_interval_entry _ _ _ Hunit Ha).
    - exact (@unit_interval_entry _ _ _ Hunit Hb). }
  destruct type as [| |raw].
  - exact (Hsupported _ oneMinusAvg_table_Beckmann).
  - exact (Hsupported _ oneMinusAvg_table_GGX).
  - unfold oneMinusAvg.
    destruct (rIndex roughness); [|discriminate].
    unfold bind. intros [= <-]. split; discriminate.
Qed.

Lemma oneMinusAvg_result_in_unit_interval_witness :
  oneMinusAvg MICROFACET_DISTRIBUTION_GGX 1 = Some 0.6283700000 /\
  0 <= 0.6283700000 /\ 0.6283700000 <= 1.
Proof.
  split; [reflexivity|].
  apply (@oneMinusAvg_result_in_unit_interval
           MICROFACET_DISTRIBUTION_GGX 1 0.6283700000).
  reflexivity.
Defined.

(** X7: for a variant that is neither Beckmann nor GGX, [oneMinusAvg] returns
    [0.0] exactly when [rIndex] has a defined result, that is for a roughness
    that is not negative with [roughness * (COMP-1)] below [2^64]; no table
    is read. *)
Theorem oneMinusAvg_unsupported_variant (raw : Z) (roughness : float) :
  oneMinusAvg (MICROFACET_DISTRIBUTION_other raw) roughness = Some 0 <->
  0 <= roughness /\
  roughness * inject_Z (COMP - 1) < inject_Z size_t_modulus.
Proof.
  rewrite <- rIndex_domain. unfold oneMinusAvg.
  destruct (rIndex roughness) as [lw|]; unfold bind; split.
  - discriminate.
  - reflexivity.
  - discriminate.
  - intros H. now elim H.
Qed.

(** ** [index] and [E] on any arguments *)

Lemma index_Some (cosTheta roughness : float) (ix : Indices) :
  index cosTheta roughness = Some ix ->
  exists l,
    rIndex roughness = Some (l, w ix) /\
    iLow ix = Qceiling (fadd (to_float (wrap (l * COMP)))
                             (cosTheta * inject_Z 32)) /\
    iHigh ix = Qceiling (fadd (to_float (wrap (min (wrap (l + 1)) 1088 * COMP)))
                              (cosTheta * inject_Z 32)) /\
    (0 <= iLow ix)%Z /\ (0 <= iHigh ix)%Z.
Proof.
  unfold index, ceil. rewrite comp_minus_1.
  change (wrap (wrap (COMP * COMP) - 1)) with 1088%Z.
  destruct (rIndex roughness) as [[l weight]|]; [|discriminate].
  unfold bind at 1. cbn [fst snd].
  destruct (static_cast_size_t
              (inject_Z
                 (Qceiling (fadd (to_float (wrap (l * COMP)))
                                 (cosTheta * inject_Z 32)))))
    as [lo|] eqn:Hlo; [|discriminate].
  unfold bind at 1.
  destruct (static_cast_size_t
              (inject_Z
                 (Qceiling
                    (fadd (to_float (wrap (min (wrap (l + 1)) 1088 * COMP)))
                          (cosTheta * inject_Z 32)))))
    as [hi|] eqn:Hhi; [|discriminate].
  unfold bind. intros [= <-]. cbn [w iLow iHigh].
  apply static_cast_size_t_inject_Z_Some in Hlo as [-> Hlo].
  apply static_cast_size_t_inject_Z_Some in Hhi as [-> Hhi].
  exists l. repeat split; try reflexivity; lia.
Qed.

Lemma index_weight_range (cosTheta roughness : float) (ix : Indices) :
  index cosTheta roughness = Some ix -> 0 <= w ix /\ w ix < 1.
Proof.
  intros H. apply index_Some in H as (l & Hr & _).
  apply rIndex_Some in Hr as (Hl & Hw & _).
  destruct (weight_range roughness) as [Hw0 Hw1].
  rewrite <- Hl, <- Hw in Hw0, Hw1. now split.
Qed.

(** With [cosTheta * (COMP-1)] at most one half below the integer [K], the
    sums are rounded within that half and the flattened indices are column
    [K] of the bucket's row and of the next. *)
Lemma index_half_cell (cosTheta roughness : float) (K : Z) :
  0 <= roughness -> roughness <= 1 ->
  (0 <= K <= 33)%Z ->
  inject_Z K - (1 # 2) <= cosTheta * inject_Z 32 ->
  cosTheta * inject_Z 32 <= inject_Z K ->
  index cosTheta roughness =
  Some (mkIndices
          (roughness * inject_Z 32 -
           inject_Z (Qfloor (roughness * inject_Z 32)))
          (Qfloor (roughness * inject_Z 32) * 33 + K)
          ((Qfloor (roughness * inject_Z 32) + 1) * 33 + K)).
Proof.
  intros Hr0 Hr1 HK Hlo Hhi. pose proof (bucket_range Hr0 Hr1) as Hl.
  unfold index. rewrite (rIndex_in_range Hr0 Hr1).
  unfold bind at 1. cbn [fst snd]. rewrite comp_minus_1.
  change (wrap (wrap (COMP * COMP) - 1)) with 1088%Z.
  change COMP with 33%Z.
  rewrite (wrap_small (z := Qfloor (roughness * inject_Z 32) + 1))
    by (unfold size_t_modulus; lia).
  unfold min. rewrite Z.min_l by lia.
  rewrite !wrap_small by (unfold size_t_modulus; lia).
  rewrite !to_float_small by lia. unfold ceil.
  rewrite !(@ceil_fadd_half_cell _ K) by (try lia; assumption).
  rewrite !static_cast_size_t_inject_Z by (unfold size_t_modulus; lia).
  reflexivity.
Qed.

Lemma grid_sample_half_cell (K : Z) :
  inject_Z K - (1 # 2) <= inject_Z K / inject_Z 32 * inject_Z 32 /\
  inject_Z K / inject_Z 32 * inject_Z 32 <= inject_Z K.
Proof.
  assert (inject_Z K / inject_Z 32 * inject_Z 32 == inject_Z K) as H by field.
  rewrite H. split; lra.
Qed.

(** X8: a [cosTheta] that is at most half a sample spacing below the grid
    sample [K/(COMP-1)], [0 <= K <= COMP-1], is answered as that grid sample:
    for a roughness in [0, 1] [index] gives the same indices, row
    [floor(roughness*(COMP-1))] and the next row of column [K], and [E]
    gives the same result, defined or not, for every variant.  Nothing is
    interpolated along the [cosTheta] axis. *)
Theorem E_cosTheta_half_cell
        (type : MicrofacetDistribution) (cosTheta roughness : float) (K : Z) :
  (0 <= K <= COMP - 1)%Z ->
  inject_Z K - (1 # 2) <= cosTheta * inject_Z (COMP - 1) ->
  cosTheta * inject_Z (COMP - 1) <= inject_Z K ->
  0 <= roughness -> roughness <= 1 ->
  exists ix,
    index cosTheta roughness = Some ix /\
    iLow ix = (Qfloor (roughness * inject_Z (COMP - 1)) * COMP + K)%Z /\
    iHigh ix = (iLow ix + COMP)%Z /\
    index (inject_Z K / inject_Z (COMP - 1)) roughness = Some ix /\
    E type cosTheta roughness
    = E type (inject_Z K / inject_Z (COMP - 1)) roughness.
Proof.
  change (COMP - 1)%Z with 32%Z. change COMP with 33%Z.
  intros HK Hlo Hhi Hr0 Hr1.
  assert (0 <= K <= 33)%Z as HK' by lia.
  destruct (grid_sample_half_cell K) as [Hglo Hghi].
  pose proof (index_half_cell Hr0 Hr1 HK' Hlo Hhi) as Hc.
  pose proof (index_half_cell Hr0 Hr1 HK' Hglo Hghi) as Hg.
  eexists. split; [exact Hc|]. cbn [iLow iHigh].
  split; [reflexivity|]. split; [lia|].
  split; [exact Hg|].
  unfold E. now rewrite Hc, Hg.
Qed.

Lemma E_cosTheta_half_cell_witness :
  ((0 <= 11 <= COMP - 1)%Z /\
   inject_Z 11 - (1 # 2) <= (1 # 3) * inject_Z (COMP - 1) /\
   (1 # 3) * inject_Z (COMP - 1) <= inject_Z 11 /\
   0 <= 1 /\ 1 <= 1) /\
  exists ix,
    index (1 # 3) 1 = Some ix /\
    iLow ix = (Qfloor (1 * inject_Z (COMP - 1)) * COMP + 11)%Z /\
    iHigh ix = (iLow ix + COMP)%Z /\
    index (inject_Z 11 / inject_Z (COMP - 1)) 1 = Some ix /\
    E MICROFACET_DISTRIBUTION_GGX (1 # 3) 1
    = E MICROFACET_DISTRIBUTION_GGX (inject_Z 11 / inject_Z (COMP - 1)) 1.
Proof.
  split.
  - split; [split; discriminate|]. repeat split; discriminate.
  - apply (@E_cosTheta_half_cell MICROFACET_DISTRIBUTION_GGX (1 # 3) 1 11).
    + split; discriminate.
    + discriminate.
    + discriminate.
    + discriminate.
    + discriminate.
Defined.

Lemma flat_past_table (z : Z) (cosTheta : float) :
  0 <= cosTheta -> (1089 <= z)%Z ->
  (1089 <= Qceiling (fadd (to_float z) (cosTheta * inject_Z 32)%Q))%Z.
Proof.
  intros Hc Hz.
  assert (inject_Z 1089 <= to_float z) as Hf.
  { apply round_ge_integer; [lia|]. now rewrite <- Zle_Qle. }
  rewrite <- (Qceiling_Z 1089). apply Qceiling_resp_le.
  apply round_ge_integer; [lia|].
  change (inject_Z 32) with 32. lra.
Qed.

Lemma E_defined_roughness
      (type : MicrofacetDistribution) (t : list float)
      (cosTheta roughness : float) :
  E_table type t -> 0 <= cosTheta -> cosTheta <= 1 ->
  E type cosTheta roughness <> None -> 0 <= roughness /\ roughness < 1.
Proof.
  intros Ht Hc0 Hc1. rewrite (E_reads cosTheta roughness Ht). intros H.
  destruct (index cosTheta roughness) as [ix|] eqn:Hix; [|now elim H].
  unfold bind in H.
  destruct (lerp_reads t (iLow ix) (iHigh ix) (w ix)) as [e|] eqn:He;
    [|now elim H].
  apply lerp_reads_Some in He as (a & b & Ha & Hb & _).
  apply read_Some_range in Ha as [Hlo _].
  apply read_Some_range in Hb as [Hhi _].
  rewrite (E_table_length Ht) in Hlo, Hhi.
  apply index_Some in Hix as (l & Hr & Hilo & Hihi & _).
  apply rIndex_Some in Hr as (Hl & _ & Hrange).
  assert (l <= 31)%Z as Hl31.
  { destruct (Z.le_gt_cases l 31) as [Hle | Hgt]; [exact Hle|].
    assert (1089 <= wrap (l * COMP) \/
            1089 <= wrap (min (wrap (l + 1)) 1088 * COMP))%Z as [Hbig | Hbig].
    { unfold min, wrap, size_t_modulus in *. change COMP with 33%Z.
      Z.div_mod_to_equations. lia. }
    - pose proof (flat_past_table Hc0 Hbig) as Hp. rewrite <- Hilo in Hp. lia.
    - pose proof (flat_past_table Hc0 Hbig) as Hp. rewrite <- Hihi in Hp. lia. }
  split.
  - apply scaled_nonneg, Qfloor_ge. lia.
  - assert (roughness * inject_Z 32 < inject_Z 32) as Hlt
      by (apply Qfloor_lt; lia).
    change (inject_Z 32) with 32 in Hlt. lra.
Qed.

(** X9: for Beckmann and for GGX and [cosTheta] in [0, 1], [E] has a defined
    result exactly for [0 <= roughness < 1]: below [0] the conversion to
    [size_t] is undefined, and from [1] on a read is past the end of the
    table, whatever the roughness and with the wrap-around of [size_t] taken
    into account. *)
Theorem E_defined_iff
        (type : MicrofacetDistribution) (t : list float)
        (cosTheta roughness : float) :
  E_table type t -> 0 <= cosTheta -> cosTheta <= 1 ->
  (E type cosTheta roughness <> None <-> 0 <= roughness /\ roughness < 1).
Proof.
  intros Ht Hc0 Hc1. split.
  - exact (E_defined_roughness roughness Ht Hc0 Hc1).
  - intros [Hr0 Hr1].
    assert (roughness <= 1) as Hr1' by lra.
    rewrite (E_below_1 Ht Hc0 Hc1 Hr0 Hr1' Hr1). discriminate.
Qed.

Lemma E_defined_iff_witness :
  (E_table MICROFACET_DISTRIBUTION_BECKMANN mBeckmannE /\
   0 <= 1 # 2 /\ 1 # 2 <= 1) /\
  (E MICROFACET_DISTRIBUTION_BECKMANN (1 # 2) (3 # 2) <> None <->
   0 <= 3 # 2 /\ 3 # 2 < 1).
Proof.
  split.
  - split; [constructor|]. split; discriminate.
  - apply (@E_defined_iff MICROFACET_DISTRIBUTION_BECKMANN mBeckmannE
             (1 # 2) (3 # 2)).
    + constructor.
    + discriminate.
    + discriminate.
Defined.

(** X12: whatever the variant, [cosTheta] and roughness, a result that [E]
    returns lies in [0.0, 1.0]. *)
Theorem E_result_in_unit_interval
        (type : MicrofacetDistribution) (cosTheta roughness e : float) :
  E type cosTheta roughness = Some e -> 0 <= e /\ e <= 1.
Proof.
  assert (forall t, E_table type t ->
                    E type cosTheta roughness = Some e -> 0 <= e /\ e <= 1)
    as Hsupported.
  { intros t Ht. rewrite (E_reads cosTheta roughness Ht).
    destruct (index cosTheta roughness) as [ix|] eqn:Hix; [|discriminate].
    unfold bind. intros He.
    apply lerp_reads_Some in He as (a & b & Ha & Hb & ->).
    destruct (index_weight_range _ _ Hix) as [Hw0 Hw1].
    pose proof (E_table_unit Ht) as Hunit.
    apply lerp_in_unit_interval; [lra | lra | |].
    - exact (@unit_interval_entry _ _ _ Hunit Ha).
    - exact (@unit_interval_entry _ _ _ Hunit Hb). }
  destruct type as [| |raw].
  - exact (Hsupported _ E_table_Beckmann).
  - exact (Hsupported _ E_table_GGX).
  - unfold E.
    destruct (index cosTheta roughness); [|discriminate].
    unfold bind. intros [= <-]. split; discriminate.
Qed.

Lemma E_result_in_unit_interval_witness :
  E MICROFACET_DISTRIBUTION_GGX 1 0 = Some 1.0000000000 /\
  0 <= 1.0000000000 /\ 1.0000000000 <= 1.
Proof.
  split; [reflexivity|].
  apply (@E_result_in_unit_interval MICROFACET_DISTRIBUTION_GGX
           1 0 1.0000000000).
  reflexivity.
Defined.

(** ** Columns of the 2-D tables *)

Lemma column_nth (t : list float) (j n : nat) :
  (n < 33)%nat -> nth n (column t j) 0 = nth (n * 33 + j) t 0.
Proof.
  intros Hn. unfold column.
  rewrite (nth_indep _ 0 ((fun n => nth (n * 33 + j) t 0) 0%nat))
    by (rewrite length_map, length_seq; exact Hn).
  rewrite (map_nth (fun n => nth (n * 33 + j) t 0)).
  now rewrite seq_nth by exact Hn.
Qed.

Lemma column_0_zero (type : MicrofacetDistribution) (t : list float) (n : nat) :
  E_table type t -> (n < 33)%nat -> nth (n * 33) t 0 == 0.
Proof.
  intros Ht Hn.
  assert (all_zero (column t 0) = true) as Hz
    by (destruct Ht; vm_compute; reflexivity).
  replace (n * 33)%nat with (n * 33 + 0)%nat by lia.
  rewrite <- (column_nth t 0 Hn).
  apply Qeq_bool_iff.
  apply (proj1 (forallb_forall _ _) Hz). apply nth_In.
  unfold column. rewrite length_map, length_seq. exact Hn.
Qed.

Lemma column_32_nonincreasing (type : MicrofacetDistribution) (t : list float) :
  E_table type t ->
  nondecreasing_from (map Qopp (column t 32)) 0 (32 - 0) = true.
Proof. intros []; vm_compute; reflexivity. Qed.

Lemma opp_column_nth (t : list float) (j n : nat) :
  (n < 33)%nat ->
  nth n (map Qopp (column t j)) 0 = - nth (n * 33 + j) t 0.
Proof.
  intros Hn.
  change (nth n (map Qopp (column t j)) 0)
    with (nth n (map Qopp (column t j)) (- 0)).
  now rewrite map_nth, column_nth.
Qed.

Lemma lerp_opp (a b t : float) : lerp (- a) (- b) t == - lerp a b t.
Proof. unfold lerp. ring. Qed.

Lemma lerp_zero (a b t : float) : a == 0 -> b == 0 -> lerp a b t == 0.
Proof. intros Ha Hb. unfold lerp. rewrite Ha, Hb. ring. Qed.

(** ** [E] by row and column *)

Lemma E_by_column
      (type : MicrofacetDistribution) (t : list float)
      (cosTheta roughness : float) (K : Z) :
  E_table type t ->
  0 <= roughness -> roughness <= 1 ->
  (0 <= K <= 33)%Z ->
  inject_Z K - (1 # 2) <= cosTheta * inject_Z 32 ->
  cosTheta * inject_Z 32 <= inject_Z K ->
  ((Qfloor (roughness * inject_Z 32) + 1) * 33 + K <= 1088)%Z ->
  E type cosTheta roughness =
  Some (lerp (nth (Z.to_nat (Qfloor (roughness * inject_Z 32)) * 33
                   + Z.to_nat K) t 0)
             (nth ((Z.to_nat (Qfloor (roughness * inject_Z 32)) + 1) * 33
                   + Z.to_nat K) t 0)
             (roughness * inject_Z 32
              - inject_Z (Qfloor (roughness * inject_Z 32)))).
Proof.
  intros Ht Hr0 Hr1 HK Hlo Hhi Hin.
  pose proof (bucket_range Hr0 Hr1) as Hl.
  rewrite (E_reads cosTheta roughness Ht).
  rewrite (index_half_cell Hr0 Hr1 HK Hlo Hhi).
  unfold bind. cbn [iLow iHigh w].
  rewrite lerp_reads_defined by (rewrite (E_table_length Ht); lia).
  replace (Z.to_nat (Qfloor (roughness * inject_Z 32) * 33 + K))
    with (Z.to_nat (Qfloor (roughness * inject_Z 32)) * 33 + Z.to_nat K)%nat
    by lia.
  replace (Z.to_nat ((Qfloor (roughness * inject_Z 32) + 1) * 33 + K))
    with ((Z.to_nat (Qfloor (roughness * inject_Z 32)) + 1) * 33
          + Z.to_nat K)%nat by lia.
  reflexivity.
Qed.

Lemma bucket_below (roughness : float) (k : Z) :
  roughness * inject_Z 32 < inject_Z k ->
  (Qfloor (roughness * inject_Z 32) <= k - 1)%Z.
Proof. intros H. apply Qfloor_lt in H. lia. Qed.

(** X13: for Beckmann and for GGX, at [cosTheta = 0.0], and for every
    [cosTheta] from half a sample spacing below it, [-1/64], up to it, [E]
    returns [0.0] at every roughness of [0, 1): both reads fall in column
    [0] of the table, which holds [0.00000] in every row. *)
Theorem E_grazing_is_zero
        (type : MicrofacetDistribution) (t : list float)
        (cosTheta roughness : float) :
  E_table type t ->
  - (1 # 64) <= cosTheta -> cosTheta <= 0 ->
  0 <= roughness -> roughness < 1 ->
  exists ix e,
    index cosTheta roughness = Some ix /\
    (iLow ix mod COMP = 0)%Z /\ (iHigh ix mod COMP = 0)%Z /\
    E type cosTheta roughness = Some e /\ e == 0.
Proof.
  intros Ht Hc0 Hc1 Hr0 Hr1.
  assert (roughness <= 1) as Hr1' by lra.
  pose proof (bucket_range Hr0 Hr1') as Hl.
  assert (Qfloor (roughness * inject_Z 32) <= 31)%Z as Hl31.
  { apply (@bucket_below roughness 32).
    change (inject_Z 32) with 32. lra. }
  assert (0 <= 0 <= 33)%Z as HK by lia.
  assert (inject_Z 0 - (1 # 2) <= cosTheta * inject_Z 32) as Hlo
    by (change (inject_Z 0) with 0; change (inject_Z 32) with 32; lra).
  assert (cosTheta * inject_Z 32 <= inject_Z 0) as Hhi
    by (change (inject_Z 0) with 0; change (inject_Z 32) with 32; lra).
  eexists; eexists.
  split; [exact (index_half_cell Hr0 Hr1' HK Hlo Hhi)|].
  cbn [iLow iHigh]. change COMP with 33%Z.
  split; [rewrite Z.add_0_r; apply Z.mod_mul; lia|].
  split; [rewrite Z.add_0_r; apply Z.mod_mul; lia|].
  split.
  - apply (E_by_column Ht Hr0 Hr1' HK Hlo Hhi). lia.
  - change (Z.to_nat 0) with 0%nat. rewrite !Nat.add_0_r.
    apply lerp_zero; apply (column_0_zero Ht); lia.
Qed.

Lemma E_grazing_is_zero_witness :
  (E_table MICROFACET_DISTRIBUTION_BECKMANN mBeckmannE /\
   - (1 # 64) <= 0 /\ 0 <= 0 /\ 0 <= 2 # 3 /\ 2 # 3 < 1) /\
  exists ix e,
    index 0 (2 # 3) = Some ix /\
    (iLow ix mod COMP = 0)%Z /\ (iHigh ix mod COMP = 0)%Z /\
    E MICROFACET_DISTRIBUTION_BECKMANN 0 (2 # 3) = Some e /\ e == 0.
Proof.
  split.
  - split; [constructor|]. repeat split; discriminate.
  - apply (@E_grazing_is_zero MICROFACET_DISTRIBUTION_BECKMANN mBeckmannE
             0 (2 # 3)).
    + constructor.
    + discriminate.
    + discriminate.
    + discriminate.
    + reflexivity.
Defined.

Lemma column_32_entries (type : MicrofacetDistribution) (t : list float)
      (a b : nat) :
  E_table type t -> (a <= b)%nat -> (b <= 32)%nat ->
  nth (b * 33 + 32) t 0 <= nth (a * 33 + 32) t 0.
Proof.
  intros Ht Hab Hb.
  assert (0 <= a)%nat as Ha by lia.
  pose proof (@entries_nondecreasing _ _ (column_32_nonincreasing Ht)
                                     a b Ha Hab Hb) as H.
  rewrite !opp_column_nth in H by lia. lra.
Qed.

(** X14: for Beckmann and for GGX, at [cosTheta = 1.0] and on the grid
    samples [k/(COMP-1)] of the roughness below the last one, [E] returns
    the entry of the last column in row [k], and these results never grow
    with [k]: the last column of both tables never increases from a row to
    the next. *)
Theorem E_normal_incidence_grid_nonincreasing
        (type : MicrofacetDistribution) (t : list float)
        (k1 k2 : Z) (r1 r2 : float) :
  E_table type t ->
  (0 <= k1)%Z -> (k1 <= k2)%Z -> (k2 <= COMP - 2)%Z ->
  r1 == inject_Z k1 / inject_Z (COMP - 1) ->
  r2 == inject_Z k2 / inject_Z (COMP - 1) ->
  exists e1 e2 a1 a2,
    E type 1 r1 = Some e1 /\ E type 1 r2 = Some e2 /\
    read t (k1 * COMP + (COMP - 1)) = Some a1 /\
    read t (k2 * COMP + (COMP - 1)) = Some a2 /\
    e1 == a1 /\ e2 == a2 /\ e2 <= e1.
Proof.
  change (COMP - 1)%Z with 32%Z. change (COMP - 2)%Z with 31%Z.
  change COMP with 33%Z.
  intros Ht Hk1 Hk12 Hk2 Hr1 Hr2.
  assert (0 <= k1 <= 32)%Z as Hk1' by lia.
  assert (0 <= k2 <= 32)%Z as Hk2' by lia.
  destruct (sample_range Hk1' Hr1) as [H10 H11].
  destruct (sample_range Hk2' Hr2) as [H20 H21].
  assert (0 <= 32 <= 33)%Z as HK by lia.
  assert (inject_Z 32 - (1 # 2) <= 1 * inject_Z 32) as Hlo by discriminate.
  assert (1 * inject_Z 32 <= inject_Z 32) as Hhi by discriminate.
  pose proof (E_table_length Ht) as Hlen.
  pose proof (@E_by_column _ _ 1 r1 32 Ht H10 H11 HK Hlo Hhi) as HE1.
  pose proof (@E_by_column _ _ 1 r2 32 Ht H20 H21 HK Hlo Hhi) as HE2.
  rewrite (sample_bucket Hr1) in HE1. rewrite (sample_bucket Hr2) in HE2.
  change (Z.to_nat 32) with 32%nat in HE1, HE2.
  eexists; eexists; eexists; eexists.
  split; [apply HE1; lia|]. split; [apply HE2; lia|].
  split; [apply read_defined; rewrite Hlen; lia|].
  split; [apply read_defined; rewrite Hlen; lia|].
  replace (Z.to_nat (k1 * 33 + 32)) with (Z.to_nat k1 * 33 + 32)%nat by lia.
  replace (Z.to_nat (k2 * 33 + 32)) with (Z.to_nat k2 * 33 + 32)%nat by lia.
  assert (lerp (nth (Z.to_nat k1 * 33 + 32) t 0)
               (nth ((Z.to_nat k1 + 1) * 33 + 32) t 0)
               (r1 * inject_Z 32 - inject_Z k1)
          == nth (Z.to_nat k1 * 33 + 32) t 0) as He1
    by (apply lerp_weight_0; exact (sample_weight Hr1)).
  assert (lerp (nth (Z.to_nat k2 * 33 + 32) t 0)
               (nth ((Z.to_nat k2 + 1) * 33 + 32) t 0)
               (r2 * inject_Z 32 - inject_Z k2)
          == nth (Z.to_nat k2 * 33 + 32) t 0) as He2
    by (apply lerp_weight_0; exact (sample_weight Hr2)).
  split; [exact He1|]. split; [exact He2|].
  rewrite He1, He2. apply (column_32_entries Ht); lia.
Qed.

Lemma E_normal_incidence_grid_nonincreasing_witness :
  (E_table MICROFACET_DISTRIBUTION_GGX mGGXE /\
   (0 <= 6)%Z /\ (6 <= 25)%Z /\ (25 <= COMP - 2)%Z /\
   3 # 16 == inject_Z 6 / inject_Z (COMP - 1) /\
   25 # 32 == inject_Z 25 / inject_Z (COMP - 1)) /\
  exists e1 e2 a1 a2,
    E MICROFACET_DISTRIBUTION_GGX 1 (3 # 16) = Some e1 /\
    E MICROFACET_DISTRIBUTION_GGX 1 (25 # 32) = Some e2 /\
    read mGGXE (6 * COMP + (COMP - 1)) = Some a1 /\
    read mGGXE (25 * COMP + (COMP - 1)) = Some a2 /\
    e1 == a1 /\ e2 == a2 /\ e2 <= e1.
Proof.
  split.
  - split; [constructor|]. repeat split; discriminate.
  - apply (@E_normal_incidence_grid_nonincreasing
             MICROFACET_DISTRIBUTION_GGX mGGXE 6 25 (3 # 16) (25 # 32)).
    + constructor.
    + discriminate.
    + discriminate.
    + discriminate.
    + reflexivity.
    + reflexivity.
Defined.

(** X15: for Beckmann and for GGX, a [cosTheta] in [[65/64, 33/32]], above
    its range by half a sample spacing to a whole one, is not refused: with
    a roughness in [0, 31/32) the ceiling is [COMP], both flattened indices
    move on to column [0] of the following rows, and [E] returns [0.0]. *)
Theorem E_cosTheta_just_above_1
        (type : MicrofacetDistribution) (t : list float)
        (cosTheta roughness : float) :
  E_table type t ->
  65 # 64 <= cosTheta -> cosTheta <= 33 # 32 ->
  0 <= roughness -> roughness < 31 # 32 ->
  exists ix e,
    index cosTheta roughness = Some ix /\
    iLow ix = ((Qfloor (roughness * inject_Z (COMP - 1)) + 1) * COMP)%Z /\
    iHigh ix = ((Qfloor (roughness * inject_Z (COMP - 1)) + 2) * COMP)%Z /\
    E type cosTheta roughness = Some e /\ e == 0.
Proof.
  change (COMP - 1)%Z with 32%Z. change COMP with 33%Z.
  intros Ht Hc0 Hc1 Hr0 Hr1.
  assert (roughness <= 1) as Hr1' by lra.
  pose proof (bucket_range Hr0 Hr1') as Hl.
  assert (Qfloor (roughness * inject_Z 32) <= 30)%Z as Hl30.
  { apply (@bucket_below roughness 31).
    change (inject_Z 32) with 32. change (inject_Z 31) with 31. lra. }
  assert (0 <= 33 <= 33)%Z as HK by lia.
  assert (inject_Z 33 - (1 # 2) <= cosTheta * inject_Z 32) as Hlo
    by (change (inject_Z 33) with 33; change (inject_Z 32) with 32; lra).
  assert (cosTheta * inject_Z 32 <= inject_Z 33) as Hhi
    by (change (inject_Z 33) with 33; change (inject_Z 32) with 32; lra).
  eexists; eexists.
  split; [exact (index_half_cell Hr0 Hr1' HK Hlo Hhi)|].
  cbn [iLow iHigh].
  split; [lia|]. split; [lia|].
  split.
  - apply (E_by_column Ht Hr0 Hr1' HK Hlo Hhi). lia.
  - change (Z.to_nat 33) with 33%nat.
    replace (Z.to_nat (Qfloor (roughness * inject_Z 32)) * 33 + 33)%nat
      with ((Z.to_nat (Qfloor (roughness * inject_Z 32)) + 1) * 33)%nat
      by lia.
    replace ((Z.to_nat (Qfloor (roughness * inject_Z 32)) + 1) * 33 + 33)%nat
      with ((Z.to_nat (Qfloor (roughness * inject_Z 32)) + 2) * 33)%nat
      by lia.
    apply lerp_zero; apply (column_0_zero Ht); lia.
Qed.

Lemma E_cosTheta_just_above_1_witness :
  (E_table MICROFACET_DISTRIBUTION_GGX mGGXE /\
   65 # 64 <= 65 # 64 /\ 65 # 64 <= 33 # 32 /\ 0 <= 1 # 2 /\
   1 # 2 < 31 # 32) /\
  exists ix e,
    index (65 # 64) (1 # 2) = Some ix /\
    iLow ix = ((Qfloor ((1 # 2) * inject_Z (COMP - 1)) + 1) * COMP)%Z /\
    iHigh ix = ((Qfloor ((1 # 2) * inject_Z (COMP - 1)) + 2) * COMP)%Z /\
    E MICROFACET_DISTRIBUTION_GGX (65 # 64) (1 # 2) = Some e /\ e == 0.
Proof.
  split.
  - split; [constructor|]. split; [discriminate|].
    split; [discriminate|]. split; [discriminate | reflexivity].
  - apply (@E_cosTheta_just_above_1 MICROFACET_DISTRIBUTION_GGX mGGXE
             (65 # 64) (1 # 2)).
    + constructor.
    + discriminate.
    + discriminate.
    + discriminate.
    + reflexivity.
Defined.

Lemma E_reads_in_table_below_roughness_1_witness :
  (E_table MICROFACET_DISTRIBUTION_BECKMANN mBeckmannE /\
   0 <= 1 # 3 /\ 1 # 3 <= 1 /\ 0 <= 6 # 7 /\ 6 # 7 < 1) /\
  exists ix a b e,
    index (1 # 3) (6 # 7) = Some ix /\
    (0 <= iLow ix < COMP * COMP)%Z /\ (0 <= iHigh ix < COMP * COMP)%Z /\
    read mBeckmannE (iLow ix) = Some a /\
    read mBeckmannE (iHigh ix) = Some b /\
    0 <= w ix /\ w ix < 1 /\
    E MICROFACET_DISTRIBUTION_BECKMANN (1 # 3) (6 # 7) = Some e /\
    e = lerp a b (w ix).
Proof.
  split.
  - split; [constructor|]. split; [discriminate|].
    split; [discriminate|]. split; [discriminate | reflexivity].
  - apply (@E_reads_in_table_below_roughness_1
             MICROFACET_DISTRIBUTION_BECKMANN
             mBeckmannE (1 # 3) (6 # 7)).
    + constructor.
    + discriminate.
    + discriminate.
    + discriminate.
    + reflexivity.
Defined.

Lemma E_on_grid_below_last_row_witness :
  (E_table MICROFACET_DISTRIBUTION_GGX mGGXE /\
   (0 <= 4 <= COMP - 1)%Z /\ (0 <= 31 <= COMP - 2)%Z /\
   1 # 8 == inject_Z 4 / inject_Z (COMP - 1) /\
   31 # 32 == inject_Z 31 / inject_Z (COMP - 1)) /\
  exists ix entry e,
    index (1 # 8) (31 # 32) = Some ix /\
    iLow ix = (31 * COMP + 4)%Z /\ iHigh ix = ((31 + 1) * COMP + 4)%Z /\
    w ix == 0 /\
    read mGGXE (31 * COMP + 4) = Some entry /\
    E MICROFACET_DISTRIBUTION_GGX (1 # 8) (31 # 32) = Some e /\ e == entry.
Proof.
  split.
  - split; [constructor|]. split; [split; discriminate|].
    split; [split; discriminate|]. split; reflexivity.
  - apply (@E_on_grid_below_last_row MICROFACET_DISTRIBUTION_GGX mGGXE
             4 31 (1 # 8) (31 # 32)).
    + constructor.
    + split; discriminate.
    + split; discriminate.
    + reflexivity.
    + reflexivity.
Defined.

End ReflectionAlbedo.

(** * The labels *)

(** X16: the thirteen labels of closure.cc are pairwise distinct; [NONE]
    holds no characters, and every other label but [STOP] is one character
    long, so that none of them can be taken for [NONE] or for the stop
    mark. *)
Theorem Labels_pairwise_distinct :
  NoDup Labels.all /\
  length Labels.all = 13%nat /\
  Forall (fun l => l = Labels.NONE \/ l = Labels.STOP \/
                   Labels.single_character l) Labels.all.
Proof.
  split; [|split].
  - unfold Labels.all.
    repeat (constructor; [cbn; intuition discriminate|]). constructor.
  - reflexivity.
  - unfold Labels.all.
    repeat (constructor;
            [first [now left | now (right; left)
                   | right; right; eexists; reflexivity]|]).
    constructor.
Qed.
